(** * Ouija board service: request pipeline, history store and admission control

    A shallow embedding of the Go sources [storage.go], [ollama.go],
    [handlers.go] and [middleware.go], and the properties of the inference
    pipeline proved over it.

    Conventions.
    - A Go [string] is a byte string: Rocq's [string], one [ascii] per byte,
      so [String.length] is Go's [len].
    - A Go [int] is a [Z]; where the source multiplies, the 64-bit wrap-around
      is written out ([wrap64]).
    - A Go [error] value is an [option error], [None] being [nil].
    - Slices live in an explicit heap of backing arrays, so that aliasing
      between [s.pairs] and a slice handed out by [GetAll] is visible.
    - Mutex-protected critical sections are atomic state transitions. *)

From Stdlib Require Import ZArith Lia Ascii String.
From stdpp Require Import base list strings gmap.

Local Open Scope Z_scope.

(** ** Go values shared by all files *)

(** [error]: [io.EOF] is a sentinel compared by identity; [errors.New] makes an
    [errorString]; [fmt.Errorf("...: %w", err)] wraps. *)
Inductive error : Type :=
  | io_EOF
  | errorString (msg : string)
  | wrapError (msg : string) (inner : error).

(** How a call ends: it returns a value, or it panics. *)
Inductive outcome (A : Type) : Type :=
  | Returns (a : A)
  | Panics (msg : string).
Arguments Returns {A} a.
Arguments Panics {A} msg.

Definition wrap64 (z : Z) : Z := (z + 2 ^ 63) mod 2 ^ 64 - 2 ^ 63.

(** ** package strings *)

Definition bytes := list ascii.

Definition byte (n : nat) : ascii := ascii_of_nat n.

Fixpoint hasPrefix (p s : bytes) : bool :=
  match p, s with
  | [], _ => true
  | a :: p', b :: s' => Ascii.eqb a b && hasPrefix p' s'
  | _ :: _, [] => false
  end.

(** The UTF-8 encodings of the runes for which [unicode.IsSpace] holds:
    tab, LF, VT, FF, CR, space, U+0085, U+00A0, U+1680, U+2000..U+200A,
    U+2028, U+2029, U+202F, U+205F, U+3000. *)
Definition spaceEncodings : list bytes :=
  map (map byte)
    ([ [9]; [10]; [11]; [12]; [13]; [32];
       [194; 133]; [194; 160];
       [225; 154; 128] ]
     ++ map (fun k => [226; 128; k]) (seq 128 11)
     ++ [ [226; 128; 168]; [226; 128; 169]; [226; 128; 175];
          [226; 129; 159];
          [227; 128; 128] ])%nat.

(** Width in bytes of the white-space rune at the front of [s], if any. *)
Definition leadingSpace (s : bytes) : option nat :=
  length <$> find (fun p => hasPrefix p s) spaceEncodings.

(** Width of the white-space rune at the back of [s]; decoding the last
    rune backs up to the nearest rune start, which for these encodings is
    a suffix test. *)
Definition trailingSpace (s : bytes) : option nat :=
  length <$> find (fun p => hasPrefix (rev p) (rev s)) spaceEncodings.

Fixpoint trimLeft (fuel : nat) (s : bytes) : bytes :=
  match fuel with
  | O => s
  | S fuel' =>
      match leadingSpace s with
      | Some w => trimLeft fuel' (drop w s)
      | None => s
      end
  end.

Fixpoint trimRight (fuel : nat) (s : bytes) : bytes :=
  match fuel with
  | O => s
  | S fuel' =>
      match trailingSpace s with
      | Some w => trimRight fuel' (take (length s - w) s)
      | None => s
      end
  end.

(** [strings.TrimSpace]: every leading and trailing white-space rune is
    removed.  Each round removes at least one byte, so [length s] rounds
    suffice. *)
Definition TrimSpace (s : string) : string :=
  let b := list_ascii_of_string s in
  let l := trimLeft (length b) b in
  string_of_list_ascii (trimRight (length l) l).

(** [strings.ReplaceAll(input, "\x00", "")]. *)
Definition removeNUL (s : string) : string :=
  string_of_list_ascii
    (filter (fun c => c ≠ byte 0) (list_ascii_of_string s)).

(** [strings.Contains]. *)
Fixpoint containsBytes (s sub : bytes) : bool :=
  hasPrefix sub s ||
  match s with
  | [] => false
  | _ :: s' => containsBytes s' sub
  end.

Definition Contains (s sub : string) : bool :=
  containsBytes (list_ascii_of_string s) (list_ascii_of_string sub).

(** ** storage.go *)

Record QAPair : Type := mkQAPair { Question : string; Answer : string }.

(** The zero value of [QAPair], which fills freshly made arrays. *)
Definition zeroQAPair : QAPair := mkQAPair "" "".

(** *** Slices of [QAPair] over a heap of backing arrays *)

(** A slice header: which backing array, where the window starts, and its
    length and capacity. *)
Record slice : Type := mkSlice {
  s_array : nat;
  s_off : nat;
  s_len : nat;
  s_cap : nat
}.

(** The heap: backing array [i] is the [i]-th list; allocation appends. *)
Abbreviation heap := (list (list QAPair)).

Definition arrayAt (h : heap) (a : nat) : list QAPair := default [] (h !! a).

(** The elements seen through a slice. *)
Definition elems (h : heap) (s : slice) : list QAPair :=
  take (s_len s) (drop (s_off s) (arrayAt h (s_array s))).

(** [make([]QAPair, n)]. *)
Definition make (h : heap) (n : nat) : heap * slice :=
  (h ++ [replicate n zeroQAPair], mkSlice (length h) 0 n n).

Section Storage.

(** The capacity the runtime picks when [append] has to reallocate, from
    the old capacity and the needed length.  The language only promises a
    sufficiently large array, so the policy is a parameter and [append]
    takes at least the needed length. *)
Variable growslice : nat -> nat -> nat.

(** [append(s, x)]: in place when capacity allows, else into a new array. *)
Definition append (h : heap) (s : slice) (x : QAPair) : heap * slice :=
  if decide (s_len s < s_cap s)%nat then
    (alter (fun a => <[(s_off s + s_len s)%nat := x]> a) (s_array s) h,
     mkSlice (s_array s) (s_off s) (S (s_len s)) (s_cap s))
  else
    let newcap := Nat.max (S (s_len s)) (growslice (s_cap s) (S (s_len s))) in
    (h ++ [elems h s ++ x :: replicate (newcap - S (s_len s)) zeroQAPair],
     mkSlice (length h) 0 (S (s_len s)) newcap).

(** [copy(dst, src)]: the first [min(len(dst), len(src))] elements. *)
Definition copy (h : heap) (dst src : slice) : heap :=
  let n := Nat.min (s_len dst) (s_len src) in
  let data := take n (elems h src) in
  alter (fun a => take (s_off dst) a ++ data ++ drop (s_off dst + n) a)
        (s_array dst) h.

(** [s[low:]] with [low] a Go [int]: out of range panics. *)
Definition sliceFrom (s : slice) (low : Z) : outcome slice :=
  if (low <? 0) || (Z.of_nat (s_len s) <? low) then
    Panics "slice bounds out of range"
  else
    Returns (mkSlice (s_array s) (s_off s + Z.to_nat low)
                     (s_len s - Z.to_nat low) (s_cap s - Z.to_nat low)).

(** *** MemoryStorage *)

Record MemoryStorage : Type := mkMemoryStorage {
  maxSize : Z;
  pairs : slice
}.

(** The store object together with the heap its slice points into. *)
Definition store : Type := heap * MemoryStorage.

Definition NewMemoryStorage (h : heap) (maxSize : Z) : store :=
  let '(h', s) := make h 0 in (h', mkMemoryStorage maxSize s).

(** [Add]: append, then keep the last [maxSize] elements.  The assignment
    [s.pairs = append(...)] has happened when the slice expression
    panics, so the panicking outcome keeps the appended slice. *)
Definition Add (st : store) (pair : QAPair) : store * outcome (option error) :=
  let '(h, s) := st in
  let '(h1, ps) := append h (pairs s) pair in
  if Z.of_nat (s_len ps) >? maxSize s then
    match sliceFrom ps (Z.of_nat (s_len ps) - maxSize s) with
    | Returns ps' => ((h1, mkMemoryStorage (maxSize s) ps'), Returns None)
    | Panics msg => ((h1, mkMemoryStorage (maxSize s) ps), Panics msg)
    end
  else ((h1, mkMemoryStorage (maxSize s) ps), Returns None).

(** [GetAll]: a fresh array of the current length, filled by [copy]. *)
Definition GetAll (st : store) : store * (slice * option error) :=
  let '(h, s) := st in
  let '(h1, result) := make h (s_len (pairs s)) in
  let h2 := copy h1 result (pairs s) in
  ((h2, s), (result, None)).

(** A sequence of [Add] calls, with the outcome of each. *)
Fixpoint AddAll (st : store) (ps : list QAPair)
  : store * list (outcome (option error)) :=
  match ps with
  | [] => (st, [])
  | p :: ps' =>
      let '(st1, o) := Add st p in
      let '(st2, os) := AddAll st1 ps' in
      (st2, o :: os)
  end.

(** The history as a reader of the store sees it. *)
Definition history (st : store) : list QAPair := elems (fst st) (pairs (snd st)).

(** A slice is well formed in a heap when its window lies inside its
    backing array. *)
Definition slice_wf (h : heap) (s : slice) : Prop :=
  (s_len s <= s_cap s)%nat /\
  (s_off s + s_cap s <= length (arrayAt h (s_array s)))%nat /\
  (s_array s < length h)%nat.

End Storage.

(** ** ollama.go *)

Record OllamaClient : Type := mkOllamaClient {
  url : string;
  model : string;
  timeout : Z;
  maxTokens : Z
}.

Record OllamaOptions : Type := mkOllamaOptions { NumPredict : Z }.

Record OllamaRequest : Type := mkOllamaRequest {
  Model : string;
  Prompt : string;
  Stream : bool;
  Options : OllamaOptions
}.

(** One line of the streaming response. *)
Record OllamaResponse : Type := mkOllamaResponse {
  Response : string;
  Done : bool
}.

(** The outbound [*http.Request]. *)
Record HTTPRequest : Type := mkHTTPRequest {
  out_method : string;
  out_url : string;
  out_body : string;
  out_header : list (string * string)
}.

(** What a [bufio.Scanner] over the response body goes through, in order:
    a line is delivered as a token, or a read on the body fails (with
    [io.EOF] at a clean end).  Tokens after a failed read are the ones
    already buffered. *)
Inductive scanEvent : Type :=
  | Token (line : string)
  | ReadError (e : error).

Record HTTPResponse : Type := mkHTTPResponse {
  StatusCode : Z;
  Body : list scanEvent
}.

(** The incoming JSON body of [POST /ask]. *)
Record AskRequest : Type := mkAskRequest { AskRequest_Question : string }.

(** The Go packages and the network the service calls into.  They are not
    part of the repository and are taken as parameters:
    - [json_Marshal]: [json.Marshal] of the request payload;
    - [json_Unmarshal]: [json.Unmarshal(line, &ollamaResp)], [None] when it
      reports an error (the target is a fresh variable on every round);
    - [json_Decode]: the request decoder with [DisallowUnknownFields];
    - [http_NewRequest]: [http.NewRequestWithContext];
    - [client_Do]: [c.client.Do], the call to the inference endpoint, which
      fails on connection errors, time-outs and cancellation. *)
Record Env : Type := mkEnv {
  json_Marshal : OllamaRequest -> string + error;
  json_Unmarshal : string -> option OllamaResponse;
  json_Decode : string -> option AskRequest;
  http_NewRequest : string -> string -> string -> HTTPRequest + error;
  client_Do : HTTPRequest -> HTTPResponse + error
}.

Definition StatusOK : Z := 200.
Definition StatusBadRequest : Z := 400.
Definition StatusTooManyRequests : Z := 429.
Definition StatusInternalServerError : Z := 500.

Definition fallbackAnswer : string :=
  "The spirits cannot answer at this time. Try again later.".

Definition promptTemplate : string :=
  "Pretend that you are a Ouija board. As a mystical Ouija board, answer the following question in a short answer. " +:+
  "Respond without using any actions, such as *smiles*, *laughs*, or any text within asterisks. " +:+
  "If the question is a yes or no question, answer with a yes or a no. " +:+
  "If the user says goodbye, bye, or farewell, respond with 'Goodbye.' Question: ".

(** [sanitizeInput]: trim, then drop NUL bytes. *)
Definition sanitizeInput (input : string) : string :=
  let input := TrimSpace input in
  let input := removeNUL input in
  input.

(** The scanner's [setErr]: the first error other than [io.EOF] sticks. *)
Definition setErr (cur : option error) (e : error) : option error :=
  match cur with
  | None | Some io_EOF => Some e
  | Some _ => cur
  end.

(** [scanner.Err()]: [io.EOF] is reported as [nil]. *)
Definition Scanner_Err (cur : option error) : option error :=
  match cur with
  | Some io_EOF => None
  | _ => cur
  end.

(** The test [err != nil && err != io.EOF]. *)
Definition scanFailed (err : option error) : bool :=
  match err with
  | None => false
  | Some io_EOF => false
  | Some _ => true
  end.

Definition Header_Set (h : list (string * string)) (k v : string)
  : list (string * string) :=
  (k, v) :: filter (fun kv => kv.1 ≠ k) h.

Section Ollama.

Variable E : Env.

(** The loop [for scanner.Scan() { ... }] of [GenerateAnswer], run over the
    events of the body.  [err] is the scanner's error field and [answer]
    the builder's content; the result is the builder's content and the
    scanner's error field when the loop is left, by [break] or because
    [Scan] returned false. *)
Fixpoint scanLoop (evs : list scanEvent) (err : option error) (answer : string)
  : string * option error :=
  match evs with
  | [] => (answer, err)
  | ReadError e :: rest => scanLoop rest (setErr err e) answer
  | Token line :: rest =>
      if (String.length line =? 0)%nat then scanLoop rest err answer
      else
        match json_Unmarshal E line with
        | None => scanLoop rest err answer
        | Some ollamaResp =>
            let answer := answer +:+ Response ollamaResp in
            if Done ollamaResp then (answer, err)
            else scanLoop rest err answer
        end
  end.

(** [GenerateAnswer].  The caller's context reaches the model through
    [client_Do].  The list of requests sent so far is threaded through, so
    that a call to the endpoint is visible in the state. *)
Definition GenerateAnswer (c : OllamaClient) (question : string)
    (sent : list HTTPRequest) : list HTTPRequest * (string * option error) :=
  if (1000 <? String.length question)%nat then
    (sent, ("", Some (errorString "question too long")))
  else
    let question := sanitizeInput question in
    let prompt := promptTemplate +:+ question in
    let reqPayload :=
      mkOllamaRequest (model c) prompt true (mkOllamaOptions (maxTokens c)) in
    match json_Marshal E reqPayload with
    | inr err => (sent, ("", Some (wrapError "failed to marshal request" err)))
    | inl jsonData =>
        match http_NewRequest E "POST" (url c) jsonData with
        | inr err =>
            (sent, ("", Some (wrapError "failed to create request" err)))
        | inl req =>
            let req :=
              mkHTTPRequest (out_method req) (out_url req) (out_body req)
                (Header_Set (out_header req) "Content-Type" "application/json") in
            let sent := sent ++ [req] in
            match client_Do E req with
            | inr _ => (sent, (fallbackAnswer, None))
            | inl resp =>
                if negb (StatusCode resp =? StatusOK) then
                  (sent, (fallbackAnswer, None))
                else
                  let '(answer, serr) := scanLoop (Body resp) None "" in
                  if scanFailed (Scanner_Err serr) then
                    (sent, (fallbackAnswer, None))
                  else
                    let result := TrimSpace answer in
                    if String.eqb result "" then (sent, (fallbackAnswer, None))
                    else (sent, (result, None))
            end
        end
    end.

End Ollama.

(** ** middleware.go *)

Definition nano : Z := 1000000000.

(** Modelled from the spec: the token bucket [rate.Limiter] of the imported
    module golang.org/x/time/rate, whose source is not in the repository.
    The specification describes it as a capped token reserve ([lim_burst]),
    refilled continuously at [lim_limit] tokens per second and consumed one
    token per admitted request; [Allow] withdraws one token when one is
    available and refuses otherwise, without blocking.  The reserve is
    counted in billionths of a token, so that the refill over a whole number
    of nanoseconds is exact; times are nanoseconds.  A new bucket is full. *)
Record Limiter : Type := mkLimiter {
  lim_limit : Z;
  lim_burst : Z;
  lim_tokens : Z;
  lim_last : Z
}.

(** Modelled from the spec: [rate.NewLimiter], a full bucket. *)
Definition NewLimiter (r : Z) (b : Z) : Limiter :=
  mkLimiter r b (b * nano) 0.

(** Modelled from the spec: the reserve of a bucket at time [now], which is
    what was left at [lim_last] plus the refill since then, capped at the
    capacity. *)
Definition available (l : Limiter) (now : Z) : Z :=
  Z.min (lim_burst l * nano)
        (lim_tokens l + Z.max 0 (now - lim_last l) * Z.max 0 (lim_limit l)).

(** Modelled from the spec: [Limiter.Allow] at time [now] withdraws one
    token when one is available, and otherwise refuses and leaves the
    bucket as it is. *)
Definition Allow (l : Limiter) (now : Z) : bool * Limiter :=
  let avail := available l now in
  if nano <=? avail then
    (true, mkLimiter (lim_limit l) (lim_burst l) (avail - nano) now)
  else (false, l).

(** The incoming [*http.Request]: the header map holds the values of each
    canonical key. *)
Record Request : Type := mkRequest {
  Method : string;
  Path : string;
  RemoteAddr : string;
  Header : gmap string (list string);
  ReqBody : string
}.

(** [Header.Get]: the first value of the key, or the empty string. *)
Definition Header_Get (h : gmap string (list string)) (key : string) : string :=
  match h !! key with
  | Some (v :: _) => v
  | _ => ""
  end.

(** What a handler writes: a status code and a JSON-encoded payload. *)
Inductive payload : Type :=
  | ErrorResponse (message : string)
  | AskResponse (answer : string)
  | HistoryResponse (all : list QAPair).

Record Written : Type := mkWritten { w_status : Z; w_payload : payload }.

Definition respondWithJSON (p : payload) (statusCode : Z) : outcome Written :=
  Returns (mkWritten statusCode p).

Definition respondWithError (message : string) (statusCode : Z) : outcome Written :=
  respondWithJSON (ErrorResponse message) statusCode.

(** [rateLimiter]: the limiter of every identity seen, the configured rate,
    and the clean-up goroutines still asleep, each with the time its sleep
    ends and the key it will delete. *)
Record rateLimiter : Type := mkRateLimiter {
  limiters : gmap string Limiter;
  rl_rate : Z;
  sleeping : list (Z * string)
}.

Definition newRateLimiter (requestsPerSecond : Z) : rateLimiter :=
  mkRateLimiter ∅ requestsPerSecond [].

Definition fiveMinutes : Z := 5 * 60 * nano.

(** [getLimiter]: the limiter stored for [ip]; on first sight a new one
    with limit [rate] and burst [rate*2] is stored and its clean-up is
    scheduled.  The limit is kept as the integer the source converts with
    [rate.Limit]; the burst is an [int] product and wraps. *)
Definition getLimiter (rl : rateLimiter) (ip : string) (now : Z)
  : rateLimiter * Limiter :=
  match limiters rl !! ip with
  | Some limiter => (rl, limiter)
  | None =>
      let limiter := NewLimiter (rl_rate rl) (wrap64 (rl_rate rl * 2)) in
      (mkRateLimiter (<[ip := limiter]> (limiters rl)) (rl_rate rl)
                     (sleeping rl ++ [(now + fiveMinutes, ip)]),
       limiter)
  end.

(** The body of a clean-up goroutine once its sleep is over. *)
Definition cleanup (rl : rateLimiter) (ip : string) : rateLimiter :=
  mkRateLimiter (delete ip (limiters rl)) (rl_rate rl) (sleeping rl).

(** The identity a request is limited under. *)
Definition clientIP (r : Request) : string :=
  let ip := RemoteAddr r in
  let forwarded := Header_Get (Header r) "X-Forwarded-For" in
  if negb (String.eqb forwarded "") then forwarded else ip.

(** ** handlers.go *)

(** The state a handler works on: the history store, the requests sent to
    the inference endpoint, and the lines written with [log.Printf]. *)
Record AppState : Type := mkAppState {
  storage : store;
  sent : list HTTPRequest;
  logged : list string
}.

Definition Handler : Type := Request -> AppState -> AppState * outcome Written.

(** The expression [limiter.getLimiter(ip).Allow()] at time [now]: the
    limiter returned by [getLimiter] is the object stored in the map, so
    the token [Allow] takes is taken there. *)
Definition getLimiter_Allow (rl : rateLimiter) (ip : string) (now : Z)
  : rateLimiter * bool :=
  let '(rl1, limiter) := getLimiter rl ip now in
  let '(ok, limiter') := Allow limiter now in
  (mkRateLimiter (<[ip := limiter']> (limiters rl1)) (rl_rate rl1) (sleeping rl1),
   ok).

(** [rateLimitMiddleware]. *)
Definition rateLimitMiddleware (rl : rateLimiter) (now : Z) (next : Handler)
    (r : Request) (st : AppState)
  : rateLimiter * (AppState * outcome Written) :=
  let ip := clientIP r in
  let '(rl', ok) := getLimiter_Allow rl ip now in
  if negb ok then
    (rl', (st, respondWithError "Rate limit exceeded" StatusTooManyRequests))
  else (rl', next r st).

(** [n] requests of one identity, all at time [now]: the admission
    decisions in order. *)
Fixpoint burstOf (rl : rateLimiter) (ip : string) (now : Z) (n : nat)
  : rateLimiter * list bool :=
  match n with
  | O => (rl, [])
  | S n' =>
      let '(rl1, ok) := getLimiter_Allow rl ip now in
      let '(rl2, oks) := burstOf rl1 ip now n' in
      (rl2, ok :: oks)
  end.

(** The [Error()] text of an error, as [%v] prints it. *)
Fixpoint error_Error (e : error) : string :=
  match e with
  | io_EOF => "EOF"
  | errorString msg => msg
  | wrapError msg inner => msg +:+ ": " +:+ error_Error inner
  end.

Section Handlers.

Variable E : Env.
Variable growslice : nat -> nat -> nat.
Variable ollama : OllamaClient.

Definition askHandler : Handler := fun r st =>
  if negb (Contains (Header_Get (Header r) "Content-Type") "application/json") then
    (st, respondWithError "Content-Type must be application/json" StatusBadRequest)
  else
    match json_Decode E (ReqBody r) with
    | None => (st, respondWithError "Invalid request format" StatusBadRequest)
    | Some req =>
        let question := AskRequest_Question req in
        if (1000 <? String.length question)%nat then
          (st, respondWithError "Question too long (max 1000 characters)"
                                StatusBadRequest)
        else if String.eqb (TrimSpace question) "" then
          (st, respondWithError "Question cannot be empty" StatusBadRequest)
        else
          let '(sent', (answer, err)) := GenerateAnswer E ollama question (sent st) in
          match err with
          | Some e =>
              (mkAppState (storage st) sent'
                 (logged st ++ ["Error generating answer: " +:+ error_Error e]),
               respondWithError "Failed to generate answer"
                                StatusInternalServerError)
          | None =>
              let pair := mkQAPair question answer in
              let '(storage', added) := Add growslice (storage st) pair in
              match added with
              | Panics msg => (mkAppState storage' sent' (logged st), Panics msg)
              | Returns (Some e) =>
                  (mkAppState storage' sent'
                     (logged st ++ ["Error storing Q&A pair: " +:+ error_Error e]),
                   respondWithJSON (AskResponse answer) StatusOK)
              | Returns None =>
                  (mkAppState storage' sent' (logged st),
                   respondWithJSON (AskResponse answer) StatusOK)
              end
          end
    end.

Definition historyHandler : Handler := fun r st =>
  let '(storage', (result, err)) := GetAll (storage st) in
  match err with
  | Some e =>
      (mkAppState storage' (sent st)
         (logged st ++ ["Error retrieving history: " +:+ error_Error e]),
       respondWithError "Failed to retrieve history" StatusInternalServerError)
  | None =>
      (mkAppState storage' (sent st) (logged st),
       respondWithJSON (HistoryResponse (elems (fst storage') result)) StatusOK)
  end.

(** [POST /ask] as the router serves it: the rate limiter in front of the
    handler. *)
Definition serveAsk (rl : rateLimiter) (now : Z) (r : Request) (st : AppState)
  : rateLimiter * (AppState * outcome Written) :=
  rateLimitMiddleware rl now askHandler r st.

End Handlers.

(** ** A test double for the environment

    Used to run the model on concrete requests.  Its decoders read the
    JSON documents [{"question":"TEXT"}] and
    [{"response":"TEXT","done":BOOL}] for a TEXT of printable ASCII without
    quote or backslash (which JSON reads as it stands), and report an error
    on anything else; its endpoint answers every request with a fixed
    status and a fixed sequence of lines, ended cleanly. *)

Definition dquote : string := String (byte 34) "".

Definition stripPrefix (p s : bytes) : option bytes :=
  if hasPrefix p s then Some (drop (length p) s) else None.

Definition stripSuffix (p s : bytes) : option bytes :=
  (fun rest => rev rest) <$> stripPrefix (rev p) (rev s).

Definition plainText (s : bytes) : bool :=
  forallb (fun c =>
    let n := nat_of_ascii c in
    ((32 <=? n) && (n <? 127) && negb (n =? 34) && negb (n =? 92))%nat) s.

Definition between (pre post : string) (s : string) : option string :=
  match stripPrefix (list_ascii_of_string pre) (list_ascii_of_string s) with
  | None => None
  | Some rest =>
      match stripSuffix (list_ascii_of_string post) rest with
      | None => None
      | Some text =>
          if plainText text then Some (string_of_list_ascii text) else None
      end
  end.

Definition mockDecode (body : string) : option AskRequest :=
  mkAskRequest <$>
    between ("{" +:+ dquote +:+ "question" +:+ dquote +:+ ":" +:+ dquote)
            (dquote +:+ "}") body.

Definition mockUnmarshal (line : string) : option OllamaResponse :=
  let pre := "{" +:+ dquote +:+ "response" +:+ dquote +:+ ":" +:+ dquote in
  let post := dquote +:+ "," +:+ dquote +:+ "done" +:+ dquote +:+ ":" in
  match between pre (post +:+ "true}") line with
  | Some text => Some (mkOllamaResponse text true)
  | None =>
      match between pre (post +:+ "false}") line with
      | Some text => Some (mkOllamaResponse text false)
      | None => None
      end
  end.

Definition mockEnv (status : Z) (body : list scanEvent) : Env :=
  mkEnv (fun req => inl (Prompt req))
        mockUnmarshal
        mockDecode
        (fun method url body => inl (mkHTTPRequest method url body []))
        (fun _ => inl (mkHTTPResponse status body)).

(** The request line [{"response":"TEXT","done":BOOL}]. *)
Definition fragment (text : string) (done : bool) : string :=
  "{" +:+ dquote +:+ "response" +:+ dquote +:+ ":" +:+ dquote +:+ text +:+
  dquote +:+ "," +:+ dquote +:+ "done" +:+ dquote +:+ ":" +:+
  (if done then "true" else "false") +:+ "}".

(** [POST /ask] with body [{"question":"TEXT"}] and a JSON content type. *)
Definition askRequest (addr : string) (text : string) : Request :=
  mkRequest "POST" "/ask" addr
    {[ "Content-Type" := ["application/json"] ]}
    ("{" +:+ dquote +:+ "question" +:+ dquote +:+ ":" +:+ dquote +:+ text +:+
     dquote +:+ "}").

Definition mockClient : OllamaClient :=
  mkOllamaClient "http://localhost:11434/api/generate" "qwen3" (30 * nano) 10.

(** The policy of doubling, as a concrete [growslice]. *)
Definition doubling (oldcap needed : nat) : nat := (2 * oldcap)%nat.

(** ** Notions used in the statements *)

(** Keeping the last [m] elements. *)
Definition lastN {A} (m : nat) (l : list A) : list A := drop (length l - m) l.

(** The store's slice lies inside its backing array. *)
Definition store_wf (st : store) : Prop := slice_wf (fst st) (pairs (snd st)).

(** The lines a body delivers, in order. *)
Definition tokensOf (evs : list scanEvent) : list string :=
  omap (fun ev => match ev with Token line => Some line | ReadError _ => None end) evs.

(** The aggregate as the specification words it: the text pieces of the
    lines that parse, in arrival order, up to and including the first one
    whose completion flag is set; lines that do not parse are skipped. *)
Fixpoint aggregated (E : Env) (lines : list string) : string :=
  match lines with
  | [] => ""
  | line :: rest =>
      match json_Unmarshal E line with
      | None => aggregated E rest
      | Some frag =>
          Response frag +:+ (if Done frag then "" else aggregated E rest)
      end
  end.

(** The upstream failures of a call made with [req]: the connection fails,
    the status is not 200, the scanner is left with an error other than
    [io.EOF], or the aggregated text is empty once trimmed. *)
Definition upstreamFailure (E : Env) (req : HTTPRequest) : Prop :=
  match client_Do E req with
  | inr _ => True
  | inl resp =>
      StatusCode resp <> StatusOK \/
      scanFailed (Scanner_Err (snd (scanLoop E (Body resp) None ""))) = true \/
      TrimSpace (fst (scanLoop E (Body resp) None "")) = ""
  end.

(** The first value of the forwarded-for header, when the header is there. *)
Definition forwardedFor (r : Request) : option string :=
  match Header r !! "X-Forwarded-For" with
  | Some (v :: _) => Some v
  | _ => None
  end.

(** The limiter of [ip] belongs to rate [r] and holds [j] whole tokens at
    time [now]: it was last drawn from at [now], or it is new and full. *)
Definition bucketAt (rl : rateLimiter) (ip : string) (r j now : Z) : Prop :=
  exists l, limiters rl !! ip = Some l /\
    lim_limit l = r /\ lim_burst l = 2 * r /\
    ((lim_tokens l = j * nano /\ lim_last l = now) \/
     (lim_tokens l = 2 * r * nano /\ j = 2 * r /\ lim_last l = 0)).

(** ** Concrete inputs *)

Definition emptyApp : AppState := mkAppState (NewMemoryStorage [] 1000) [] [].

Definition pairOf (q a : string) : QAPair := mkQAPair q a.

Definition brokenEnv : Env :=
  mkEnv (fun _ => inr (errorString "json: unsupported value"))
        mockUnmarshal mockDecode
        (fun method url body => inl (mkHTTPRequest method url body []))
        (fun _ => inr (errorString "unreachable")).

Definition paddedQuestion : string :=
  string_of_list_ascii (replicate 1000 " "%char) +:+ "a".

Definition yesStream : list scanEvent :=
  [Token (fragment " Yes. " true); ReadError io_EOF].

Definition brokenStream : list scanEvent :=
  [Token (fragment " Y" false); Token "{oops"; Token "";
   Token (fragment "es. " true); Token (fragment "No." true); ReadError io_EOF].

Definition threeAdded : store :=
  fst (AddAll doubling (NewMemoryStorage [] 1000)
         [pairOf "one" "a"; pairOf "two" "b"; pairOf "three" "c"]).

(** [s[i] = x] with [i] a Go [int]: an index out of range panics and
    writes nothing. *)
Definition setIndex (h : heap) (s : slice) (i : Z) (x : QAPair)
  : heap * outcome unit :=
  if (i <? 0) || (Z.of_nat (s_len s) <=? i) then
    (h, Panics "index out of range")
  else
    (alter (fun a => <[(s_off s + Z.to_nat i)%nat := x]> a) (s_array s) h,
     Returns tt).

(** A caller's assignments through one slice, in order. *)
Fixpoint setAll (h : heap) (s : slice) (ws : list (Z * QAPair)) : heap :=
  match ws with
  | [] => h
  | (i, x) :: ws' => setAll (fst (setIndex h s i x)) s ws'
  end.

(** The two operations of the [Storage] interface that touch the log. *)
Inductive storeOp : Type :=
  | OpAdd (pair : QAPair)
  | OpGetAll.

(** The pairs a sequence of operations adds, in order. *)
Definition addedBy (ops : list storeOp) : list QAPair :=
  omap (fun op => match op with OpAdd p => Some p | OpGetAll => None end) ops.

(** A sequence of [Add] and [GetAll] calls on one store. *)
Fixpoint runOps (growslice : nat -> nat -> nat) (st : store) (ops : list storeOp)
  : store :=
  match ops with
  | [] => st
  | OpAdd p :: ops' => runOps growslice (fst (Add growslice st p)) ops'
  | OpGetAll :: ops' => runOps growslice (fst (GetAll st)) ops'
  end.

(** The payload [GenerateAnswer] builds for a question. *)
Definition payloadFor (c : OllamaClient) (question : string) : OllamaRequest :=
  mkOllamaRequest (model c) (promptTemplate +:+ sanitizeInput question) true
                  (mkOllamaOptions (maxTokens c)).

(** Calls [limiter.getLimiter(ip).Allow()] of any identities at any times,
    in the order the lock serialises them: the decisions in order. *)
Fixpoint admitAll (rl : rateLimiter) (calls : list (string * Z))
  : rateLimiter * list bool :=
  match calls with
  | [] => (rl, [])
  | (ip, now) :: calls' =>
      let '(rl1, ok) := getLimiter_Allow rl ip now in
      let '(rl2, oks) := admitAll rl1 calls' in
      (rl2, ok :: oks)
  end.

(** The decisions that belong to the calls of one identity. *)
Fixpoint decisionsFor (ip : string) (calls : list (string * Z)) (oks : list bool)
  : list bool :=
  match calls, oks with
  | (ip', _) :: calls', ok :: oks' =>
      if decide (ip' = ip) then ok :: decisionsFor ip calls' oks'
      else decisionsFor ip calls' oks'
  | _, _ => []
  end.

(** Two limiter states that agree on one identity and on the rate. *)
Definition agreeOn (ip : string) (rl rl' : rateLimiter) : Prop :=
  limiters rl !! ip = limiters rl' !! ip /\ rl_rate rl = rl_rate rl'.

(** ** The response writer and the middleware chain of main.go *)

(** The [http.ResponseWriter] a handler is given, seen through the
    [responseWriter] wrapper of the logging middleware: the header map
    [w.Header()]; the status and the headers that went out with the first
    [WriteHeader] (the library sends them once); the JSON documents
    written to the body; and the wrapper's field [statusCode], which every
    [WriteHeader] sets. *)
Record ResponseWriter : Type := mkResponseWriter {
  rw_header : gmap string (list string);
  rw_wrote : option (Z * gmap string (list string));
  rw_body : list payload;
  rw_statusCode : Z
}.

(** The writer of a request that has not been answered yet. *)
Definition freshWriter : ResponseWriter := mkResponseWriter ∅ None [] 0.

(** [w.Header().Set(key, value)]. *)
Definition Header_SetW (w : ResponseWriter) (key value : string) : ResponseWriter :=
  mkResponseWriter (<[key := [value]]> (rw_header w)) (rw_wrote w) (rw_body w)
                   (rw_statusCode w).

(** [responseWriter.WriteHeader]: record the code, then pass it on. *)
Definition WriteHeader (w : ResponseWriter) (code : Z) : ResponseWriter :=
  mkResponseWriter (rw_header w)
    (match rw_wrote w with
     | Some sent => Some sent
     | None => Some (code, rw_header w)
     end)
    (rw_body w) code.

(** [json.NewEncoder(w).Encode(payload)]: a body written before any
    [WriteHeader] sends status 200 first. *)
Definition Encode (w : ResponseWriter) (p : payload) : ResponseWriter :=
  mkResponseWriter (rw_header w)
    (match rw_wrote w with
     | Some sent => Some sent
     | None => Some (StatusOK, rw_header w)
     end)
    (rw_body w ++ [p]) (rw_statusCode w).

(** [respondWithJSON] on the writer: content type, status, payload. *)
Definition writeJSON (w : ResponseWriter) (p : payload) (statusCode : Z)
  : ResponseWriter :=
  let w := Header_SetW w "Content-Type" "application/json" in
  let w := WriteHeader w statusCode in
  Encode w p.

(** A line of the access log: method, request URI, status, duration and
    peer address. *)
Record accessLine : Type := mkAccessLine {
  al_method : string;
  al_uri : string;
  al_status : Z;
  al_elapsed : Z;
  al_remote : string
}.

(** What the middleware chain works on: the limiter state, the state of
    the handlers and the access log. *)
Record Server : Type := mkServer {
  srv_limiter : rateLimiter;
  srv_app : AppState;
  srv_access : list accessLine
}.

Definition Serve : Type :=
  ResponseWriter -> Request -> Server -> Server * outcome ResponseWriter.

(** A handler of handlers.go on the writer: what it answers is written
    with [respondWithJSON]. *)
Definition onWriter (h : Handler) : Serve := fun w r srv =>
  let '(app', answered) := h r (srv_app srv) in
  let srv' := mkServer (srv_limiter srv) app' (srv_access srv) in
  match answered with
  | Returns a => (srv', Returns (writeJSON w (w_payload a) (w_status a)))
  | Panics msg => (srv', Panics msg)
  end.

(** [securityHeadersMiddleware]. *)
Definition securityHeadersMiddleware (next : Serve) : Serve := fun w r srv =>
  let w := Header_SetW w "X-Frame-Options" "DENY" in
  let w := Header_SetW w "X-Content-Type-Options" "nosniff" in
  let w := Header_SetW w "X-XSS-Protection" "1; mode=block" in
  let w := Header_SetW w "Content-Security-Policy"
             "default-src 'self'; script-src 'self'; style-src 'self' 'unsafe-inline'; img-src 'self' data:" in
  let w := Header_SetW w "Referrer-Policy" "strict-origin-when-cross-origin" in
  next w r srv.

(** [rateLimitMiddleware] on the writer, at time [now]. *)
Definition rateLimitOnWriter (now : Z) (next : Serve) : Serve := fun w r srv =>
  let ip := clientIP r in
  let '(rl', ok) := getLimiter_Allow (srv_limiter srv) ip now in
  let srv' := mkServer rl' (srv_app srv) (srv_access srv) in
  if negb ok then
    (srv', Returns (writeJSON w (ErrorResponse "Rate limit exceeded")
                              StatusTooManyRequests))
  else next w r srv'.

(** [loggingMiddleware]: the wrapper starts with status 200, and the line
    is printed when the inner handler has returned; [elapsed] is what
    [time.Since(start)] measures. *)
Definition loggingMiddleware (elapsed : Z) (next : Serve) : Serve := fun w r srv =>
  let wrapper :=
    mkResponseWriter (rw_header w) (rw_wrote w) (rw_body w) StatusOK in
  match next wrapper r srv with
  | (srv', Returns w') =>
      (mkServer (srv_limiter srv') (srv_app srv')
         (srv_access srv' ++
            [mkAccessLine (Method r) (Path r) (rw_statusCode w') elapsed
                          (RemoteAddr r)]),
       Returns w')
  | (srv', Panics msg) => (srv', Panics msg)
  end.

(** A route as main.go serves it: the router runs the middleware in the
    order of the [router.Use] calls - logging, rate limit, security
    headers - around the route's handler. *)
Definition routed (elapsed now : Z) (h : Handler) : Serve :=
  loggingMiddleware elapsed
    (rateLimitOnWriter now (securityHeadersMiddleware (onWriter h))).

(** The headers [securityHeadersMiddleware] sets. *)
Definition securityHeaders : list (string * string) :=
  [ ("X-Frame-Options", "DENY");
    ("X-Content-Type-Options", "nosniff");
    ("X-XSS-Protection", "1; mode=block");
    ("Content-Security-Policy",
     "default-src 'self'; script-src 'self'; style-src 'self' 'unsafe-inline'; img-src 'self' data:");
    ("Referrer-Policy", "strict-origin-when-cross-origin") ].

(** ** config.go *)

Record Config : Type := mkConfig {
  ServerAddr : string;
  OllamaURL : string;
  OllamaModel : string;
  OllamaTimeout : Z;
  MaxHistorySize : Z;
  MaxTokens : Z;
  RateLimit : Z;
  EnableOTEL : bool;
  OTELEndpoint : string
}.

(** The parsers of the standard library that config.go calls, [None] when
    they report an error: [strconv.Atoi], [strconv.ParseBool] and
    [time.ParseDuration] (in nanoseconds). *)
Record Parsers : Type := mkParsers {
  strconv_Atoi : string -> option Z;
  strconv_ParseBool : string -> option bool;
  time_ParseDuration : string -> option Z
}.

(** [os.Getenv]: the value of the variable, empty when it is not set. *)
Definition Getenv (env : gmap string string) (key : string) : string :=
  default "" (env !! key).

Section ConfigModel.

Variable P : Parsers.
Variable env : gmap string string.

Definition getEnv (key defaultValue : string) : string :=
  let value := Getenv env key in
  if negb (String.eqb value "") then value else defaultValue.

Definition getIntEnv (key : string) (defaultValue : Z) : Z :=
  let value := Getenv env key in
  if negb (String.eqb value "") then
    match strconv_Atoi P value with
    | Some intVal => intVal
    | None => defaultValue
    end
  else defaultValue.

Definition getDurationEnv (key : string) (defaultValue : Z) : Z :=
  let value := Getenv env key in
  if negb (String.eqb value "") then
    match time_ParseDuration P value with
    | Some duration => duration
    | None => defaultValue
    end
  else defaultValue.

Definition getBoolEnv (key : string) (defaultValue : bool) : bool :=
  let value := Getenv env key in
  if negb (String.eqb value "") then
    match strconv_ParseBool P value with
    | Some boolVal => boolVal
    | None => defaultValue
    end
  else defaultValue.

Definition LoadConfig : Config :=
  mkConfig
    (getEnv "SERVER_ADDR" "0.0.0.0:8080")
    (getEnv "OLLAMA_URL" "http://localhost:11434/api/generate")
    (getEnv "OLLAMA_MODEL" "qwen3")
    (getDurationEnv "OLLAMA_TIMEOUT" (30 * nano))
    (getIntEnv "MAX_HISTORY_SIZE" 1000)
    (getIntEnv "MAX_TOKENS" 10)
    (getIntEnv "RATE_LIMIT" 10)
    (getBoolEnv "ENABLE_OTEL" false)
    (getEnv "OTEL_EXPORTER_OTLP_ENDPOINT" "http://localhost:4317").

End ConfigModel.

(** The configuration when nothing is set. *)
Definition defaultConfig : Config :=
  mkConfig "0.0.0.0:8080" "http://localhost:11434/api/generate" "qwen3"
           (30 * nano) 1000 10 10 false "http://localhost:4317".

(** The variables [LoadConfig] reads. *)
Definition configKeys : list string :=
  [ "SERVER_ADDR"; "OLLAMA_URL"; "OLLAMA_MODEL"; "OLLAMA_TIMEOUT";
    "MAX_HISTORY_SIZE"; "MAX_TOKENS"; "RATE_LIMIT"; "ENABLE_OTEL";
    "OTEL_EXPORTER_OTLP_ENDPOINT" ].

(** [NewOllamaClient]; the [http.Client] it makes has the same timeout. *)
Definition NewOllamaClient (url model : string) (timeout maxTokens : Z)
  : OllamaClient :=
  mkOllamaClient url model timeout maxTokens.

(** What [main] builds from the configuration before it starts serving:
    the store, the client and the limiter of the router. *)
Definition startServer (config : Config) : Server * OllamaClient :=
  let storage := NewMemoryStorage [] (MaxHistorySize config) in
  let ollamaClient :=
    NewOllamaClient (OllamaURL config) (OllamaModel config)
                    (OllamaTimeout config) (MaxTokens config) in
  (mkServer (newRateLimiter (RateLimit config)) (mkAppState storage [] []) [],
   ollamaClient).

(** The two JSON routes of main.go. *)
Inductive route : Type :=
  | RouteAsk
  | RouteHistory.

(** Requests served one after the other, each with the environment it
    meets (what the endpoint answers may differ from call to call). *)
Fixpoint serveApp (growslice : nat -> nat -> nat) (ollama : OllamaClient)
    (reqs : list (Env * route * Request)) (st : AppState) : AppState :=
  match reqs with
  | [] => st
  | (E, RouteAsk, r) :: reqs' =>
      serveApp growslice ollama reqs' (fst (askHandler E growslice ollama r st))
  | (E, RouteHistory, r) :: reqs' =>
      serveApp growslice ollama reqs' (fst (historyHandler r st))
  end.

(** What a recorded pair looks like: a question of at most 1000 bytes that
    is not blank, and an answer that is not empty. *)
Definition wellRecorded (p : QAPair) : Prop :=
  (String.length (Question p) <= 1000)%nat /\
  TrimSpace (Question p) <> "" /\
  Answer p <> "".

(** More concrete inputs. *)

Definition resetStream : list scanEvent :=
  [ReadError (errorString "connection reset by peer")].

Definition bareRequest : Request :=
  mkRequest "POST" "/ask" "192.0.2.1:4000" ∅ "{}".

Definition workingRequest : Request :=
  askRequest "192.0.2.1:4000" "Does this work?".

Definition spentLimiter : rateLimiter :=
  fst (burstOf (newRateLimiter 2) "192.0.2.1:4000" 0 9).

Definition noParsers : Parsers :=
  mkParsers (fun _ => None) (fun _ => None) (fun _ => None).

(** * Properties *)

(** ** Lists seen as arrays *)

Lemma take_S_insert {A} (l : list A) (n : nat) (x : A) :
  (n < length l)%nat -> take (S n) (<[n := x]> l) = take n l ++ [x].
Proof.
  revert l; induction n as [|n IH]; intros [|y l] Hlen; simpl in *; try lia.
  - reflexivity.
  - f_equal. apply IH. lia.
Qed.

Lemma length_lastN {A} (m : nat) (l : list A) :
  length (lastN m l) = Nat.min m (length l).
Proof. unfold lastN. rewrite length_drop. lia. Qed.

Lemma lastN_app_lastN {A} (m : nat) (a b : list A) :
  lastN m (lastN m a ++ b) = lastN m (a ++ b).
Proof.
  unfold lastN at 2.
  replace (drop (length a - m) a ++ b) with (drop (length a - m) (a ++ b))
    by (rewrite drop_app_le by lia; reflexivity).
  unfold lastN. rewrite drop_drop, length_drop. f_equal.
  rewrite !length_app. lia.
Qed.

Lemma lastN_all {A} (m : nat) (l : list A) :
  (length l <= m)%nat -> lastN m l = l.
Proof. intros H. unfold lastN. replace (length l - m)%nat with 0%nat by lia. reflexivity. Qed.

(** ** The history store *)

Section StorageProofs.

Variable growslice : nat -> nat -> nat.

Lemma length_elems h s : slice_wf h s -> length (elems h s) = s_len s.
Proof.
  intros (Hlc & Hoc & _). unfold elems.
  rewrite length_take, length_drop. lia.
Qed.

Lemma elems_arrayAt h h' s :
  arrayAt h (s_array s) = arrayAt h' (s_array s) -> elems h s = elems h' s.
Proof. intros H. unfold elems. rewrite H. reflexivity. Qed.

Lemma arrayAt_app_l h a extra :
  (a < length h)%nat -> arrayAt (h ++ extra) a = arrayAt h a.
Proof. intros H. unfold arrayAt. rewrite lookup_app_l by exact H. reflexivity. Qed.

Lemma arrayAt_app_new h a : arrayAt (h ++ [a]) (length h) = a.
Proof.
  unfold arrayAt. rewrite lookup_app_r by lia.
  replace (length h - length h)%nat with 0%nat by lia. reflexivity.
Qed.

Lemma arrayAt_alter_eq h a f :
  (a < length h)%nat -> arrayAt (alter f a h) a = f (arrayAt h a).
Proof.
  intros H. unfold arrayAt. rewrite list_lookup_alter_eq.
  destruct (lookup_lt_is_Some_2 h a H) as [x ->]. reflexivity.
Qed.

Lemma arrayAt_alter_ne h a b f :
  a <> b -> arrayAt (alter f a h) b = arrayAt h b.
Proof. intros H. unfold arrayAt. rewrite list_lookup_alter_ne by exact H. reflexivity. Qed.

(** What [append] does to the heap and to the slice. *)
Lemma append_spec h s x :
  slice_wf h s ->
  let '(h', s') := append growslice h s x in
  elems h' s' = elems h s ++ [x] /\
  slice_wf h' s' /\
  s_len s' = S (s_len s) /\
  (length h <= length h')%nat /\
  (forall a, a <> s_array s -> (a < length h)%nat -> arrayAt h' a = arrayAt h a) /\
  (s_array s' = s_array s \/ (length h <= s_array s')%nat).
Proof.
  intros Hwf. pose proof (length_elems h s Hwf) as Hlen.
  destruct Hwf as (Hlc & Hoc & Harr). unfold append.
  destruct (decide (s_len s < s_cap s)%nat) as [Hroom|Hfull].
  - assert (Hat : arrayAt (alter (fun a => <[(s_off s + s_len s)%nat:=x]> a) (s_array s) h)
                    (s_array s) = <[(s_off s + s_len s)%nat:=x]> (arrayAt h (s_array s)))
      by (apply arrayAt_alter_eq; exact Harr).
    repeat split; simpl.
    + unfold elems; simpl. rewrite Hat.
      rewrite drop_insert_ge by lia.
      replace (s_off s + s_len s - s_off s)%nat with (s_len s) by lia.
      apply take_S_insert. rewrite length_drop. lia.
    + lia.
    + rewrite Hat, length_insert. exact Hoc.
    + rewrite length_alter. exact Harr.
    + rewrite length_alter. lia.
    + intros a Hne _. apply arrayAt_alter_ne. congruence.
    + left; reflexivity.
  - repeat split; cbn [s_len s_off s_array s_cap].
    + unfold elems at 1; cbn [s_len s_off s_array s_cap].
      rewrite arrayAt_app_new, drop_0.
      rewrite take_app_ge by lia. rewrite Hlen.
      replace (S (s_len s) - s_len s)%nat with 1%nat by lia. reflexivity.
    + lia.
    + rewrite arrayAt_app_new, length_app. simpl. rewrite Hlen, length_replicate. lia.
    + rewrite length_app. simpl. lia.
    + rewrite length_app. simpl. lia.
    + intros a _ Ha. apply arrayAt_app_l. exact Ha.
    + right. lia.
Qed.

(** A successful [s[low:]] drops the first [low] elements. *)
Lemma sliceFrom_spec h s (low : nat) :
  slice_wf h s -> (low <= s_len s)%nat ->
  exists s', sliceFrom s (Z.of_nat low) = Returns s' /\
    elems h s' = drop low (elems h s) /\
    slice_wf h s' /\ s_array s' = s_array s.
Proof.
  intros (Hlc & Hoc & Harr) Hlow. unfold sliceFrom.
  destruct (Z.ltb_spec (Z.of_nat low) 0) as [?|_]; [lia|].
  destruct (Z.ltb_spec (Z.of_nat (s_len s)) (Z.of_nat low)) as [?|_]; [lia|].
  cbn [orb]. rewrite Nat2Z.id. eexists; split; [reflexivity|].
  unfold elems, slice_wf; cbn [s_len s_off s_array s_cap].
  repeat split; try lia.
  rewrite <- drop_drop, take_drop_commute. do 2 f_equal. lia.
Qed.

Lemma sliceFrom_array s low s' :
  sliceFrom s low = Returns s' -> s_array s' = s_array s.
Proof.
  unfold sliceFrom. destruct (_ || _); [discriminate|].
  intros [= <-]. reflexivity.
Qed.

(** [Add] keeps the store well formed, only allocates, and leaves every
    array other than the one behind [s.pairs] as it was; that holds also
    when the slice expression panics. *)
Lemma Add_frame st p :
  store_wf st ->
  let st' := fst (Add growslice st p) in
  store_wf st' /\
  maxSize (snd st') = maxSize (snd st) /\
  (length (fst st) <= length (fst st'))%nat /\
  (forall a, a <> s_array (pairs (snd st)) -> (a < length (fst st))%nat ->
     arrayAt (fst st') a = arrayAt (fst st) a) /\
  (s_array (pairs (snd st')) = s_array (pairs (snd st)) \/
   (length (fst st) <= s_array (pairs (snd st')))%nat).
Proof.
  destruct st as [h s]. unfold store_wf; cbn [fst snd]. intros Hwf.
  pose proof (append_spec h (pairs s) p Hwf) as Happ.
  unfold Add. destruct (append growslice h (pairs s) p) as [h1 ps].
  destruct Happ as (_ & Hwf1 & Hlen1 & Hgrow & Hother & Hwhere).
  pose proof Hwf1 as (Hw1 & Hw2 & Hw3).
  destruct (Z.of_nat (s_len ps) >? maxSize s); cbn [fst snd pairs maxSize];
    [|repeat split; assumption].
  remember (sliceFrom ps (Z.of_nat (s_len ps) - maxSize s)) as r eqn:Hsl.
  symmetry in Hsl. destruct r as [ps'|msg];
    cbn [fst snd pairs maxSize]; [|repeat split; assumption].
  pose proof (sliceFrom_array _ _ _ Hsl) as Harr.
  revert Hsl. unfold sliceFrom.
  destruct (Z.ltb_spec (Z.of_nat (s_len ps) - maxSize s) 0) as [?|H0];
    [discriminate|].
  destruct (Z.ltb_spec (Z.of_nat (s_len ps)) (Z.of_nat (s_len ps) - maxSize s))
    as [?|H1]; [discriminate|].
  cbn [orb]. intros [= Hps']. subst ps'.
  unfold slice_wf; cbn [s_len s_cap s_off s_array] in *.
  repeat split; try assumption; lia.
Qed.

(** With a capacity that is not negative, [Add] returns [nil] and the
    history becomes the last [maxSize] elements of the old history followed
    by the new pair. *)
Lemma Add_history st p :
  store_wf st -> 0 <= maxSize (snd st) ->
  snd (Add growslice st p) = Returns None /\
  history (fst (Add growslice st p)) =
    lastN (Z.to_nat (maxSize (snd st))) (history st ++ [p]).
Proof.
  destruct st as [h s]. unfold store_wf, history; cbn [fst snd]. intros Hwf Hmax.
  pose proof (append_spec h (pairs s) p Hwf) as Happ.
  pose proof (length_elems h (pairs s) Hwf) as Hlen.
  unfold Add. destruct (append growslice h (pairs s) p) as [h1 ps].
  destruct Happ as (Hel & Hwf1 & Hlen1 & _).
  destruct (Z.gtb_spec (Z.of_nat (s_len ps)) (maxSize s)) as [Hover|Hfits].
  - destruct (sliceFrom_spec h1 ps (s_len ps - Z.to_nat (maxSize s)) Hwf1)
      as (ps' & Hsl & Hel' & _); [lia|].
    replace (Z.of_nat (s_len ps - Z.to_nat (maxSize s)))
      with (Z.of_nat (s_len ps) - maxSize s) in Hsl by lia.
    rewrite Hsl; cbn [fst snd pairs]. split; [reflexivity|].
    rewrite Hel', Hel. unfold lastN. rewrite length_app; cbn [length].
    f_equal. lia.
  - cbn [fst snd pairs]. split; [reflexivity|].
    rewrite Hel. symmetry. apply lastN_all.
    rewrite length_app; cbn [length]. lia.
Qed.

(** The store made by [NewMemoryStorage] is well formed and empty. *)
Lemma NewMemoryStorage_wf h m :
  store_wf (NewMemoryStorage h m) /\
  history (NewMemoryStorage h m) = [] /\
  maxSize (snd (NewMemoryStorage h m)) = m.
Proof.
  unfold NewMemoryStorage, make, store_wf, slice_wf, history, elems;
    cbn [fst snd pairs maxSize s_len s_off s_cap s_array].
  rewrite arrayAt_app_new, length_app. cbn. repeat split; lia.
Qed.

Lemma AddAll_cons st p ps :
  AddAll growslice st (p :: ps) =
    (fst (AddAll growslice (fst (Add growslice st p)) ps),
     snd (Add growslice st p) :: snd (AddAll growslice (fst (Add growslice st p)) ps)).
Proof.
  cbn [AddAll]. destruct (Add growslice st p) as [st1 o]. cbn [fst snd].
  destruct (AddAll growslice st1 ps) as [st2 os]. reflexivity.
Qed.

(** A run of [Add]s over a store whose capacity is not negative: every
    call returns [nil], and the history is the last [maxSize] elements of
    everything added so far. *)
Lemma AddAll_history st ps :
  store_wf st -> 0 <= maxSize (snd st) ->
  Z.of_nat (length (history st)) <= maxSize (snd st) ->
  Forall (fun o => o = Returns None) (snd (AddAll growslice st ps)) /\
  history (fst (AddAll growslice st ps)) =
    lastN (Z.to_nat (maxSize (snd st))) (history st ++ ps).
Proof.
  revert st; induction ps as [|p ps IH]; intros st Hwf Hmax Hinv.
  - cbn [AddAll fst snd]. split; [constructor|].
    rewrite app_nil_r, lastN_all by lia. reflexivity.
  - rewrite AddAll_cons; cbn [fst snd].
    destruct (Add_history st p Hwf Hmax) as (Hret & Hhist).
    destruct (Add_frame st p Hwf) as (Hwf1 & Hmax1 & _).
    destruct (IH (fst (Add growslice st p))) as (Hrets & Hfinal).
    + exact Hwf1.
    + rewrite Hmax1. exact Hmax.
    + rewrite Hmax1, Hhist, length_lastN. lia.
    + split; [constructor; assumption|].
      rewrite Hfinal, Hmax1, Hhist, lastN_app_lastN, <- app_assoc. reflexivity.
Qed.

(** Arrays other than the store's own survive any run of [Add]s. *)
Lemma AddAll_frame st ps a :
  store_wf st -> (a < length (fst st))%nat -> a <> s_array (pairs (snd st)) ->
  arrayAt (fst (fst (AddAll growslice st ps))) a = arrayAt (fst st) a.
Proof.
  revert st; induction ps as [|p ps IH]; intros st Hwf Ha Hne.
  - reflexivity.
  - rewrite AddAll_cons; cbn [fst snd].
    destruct (Add_frame st p Hwf) as (Hwf1 & _ & Hgrow & Hother & Hwhere).
    rewrite IH.
    + apply Hother; assumption.
    + exact Hwf1.
    + lia.
    + destruct Hwhere as [-> | Hfresh]; [exact Hne | lia].
Qed.

(** [GetAll] hands out a slice over a new array that holds the history. *)
Lemma GetAll_spec st :
  store_wf st ->
  let st1 := fst (GetAll st) in
  let result := fst (snd (GetAll st)) in
  snd (snd (GetAll st)) = None /\
  store_wf st1 /\ snd st1 = snd st /\
  history st1 = history st /\
  elems (fst st1) result = history st /\
  (s_array result < length (fst st1))%nat /\
  s_array result <> s_array (pairs (snd st1)).
Proof.
  destruct st as [h s]. unfold store_wf, history; cbn [fst snd]. intros Hwf.
  pose proof (length_elems h (pairs s) Hwf) as Hlen.
  destruct Hwf as (Hlc & Hoc & Harr).
  unfold GetAll, make, copy; cbn [fst snd s_len s_off s_array s_cap].
  set (n := s_len (pairs s)).
  assert (Hsrc : elems (h ++ [replicate n zeroQAPair]) (pairs s) = elems h (pairs s)).
  { unfold elems. rewrite arrayAt_app_l by exact Harr. reflexivity. }
  rewrite Hsrc, Nat.min_id.
  assert (Hnew : arrayAt (alter (fun a => take 0 a ++ take n (elems h (pairs s)) ++ drop (0 + n) a)
                            (length h) (h ++ [replicate n zeroQAPair])) (length h)
                 = elems h (pairs s)).
  { rewrite arrayAt_alter_eq by (rewrite length_app; cbn [length]; lia).
    rewrite arrayAt_app_new. cbn [take Nat.add app].
    rewrite take_0, (take_ge (elems h (pairs s))) by lia.
    rewrite drop_ge by (rewrite length_replicate; lia).
    apply app_nil_r. }
  assert (Hold : arrayAt (alter (fun a => take 0 a ++ take n (elems h (pairs s)) ++ drop (0 + n) a)
                            (length h) (h ++ [replicate n zeroQAPair])) (s_array (pairs s))
                 = arrayAt h (s_array (pairs s))).
  { rewrite arrayAt_alter_ne by lia. apply arrayAt_app_l. exact Harr. }
  repeat split.
  - exact Hlc.
  - rewrite Hold. exact Hoc.
  - rewrite length_alter, length_app. lia.
  - apply elems_arrayAt, Hold.
  - unfold elems at 1; cbn [s_len s_off s_array]. rewrite Hnew, drop_0.
    apply take_ge. lia.
  - rewrite length_alter, length_app. cbn [length]. lia.
  - cbn [s_array]. lia.
Qed.

Lemma AddAll_wf st ps :
  store_wf st ->
  store_wf (fst (AddAll growslice st ps)) /\
  maxSize (snd (fst (AddAll growslice st ps))) = maxSize (snd st).
Proof.
  revert st; induction ps as [|p ps IH]; intros st Hwf.
  - split; [exact Hwf|reflexivity].
  - rewrite AddAll_cons; cbn [fst snd].
    destruct (Add_frame st p Hwf) as (Hwf1 & Hmax1 & _).
    destruct (IH _ Hwf1) as [Hwf2 Hmax2]. split; [exact Hwf2|congruence].
Qed.

(** Claim C2.  For a capacity [m] that is not negative and any sequence
    [ps] of pairs added to a new store: every [Add] returns [nil]; the
    stored slice is never longer than [m]; the history is exactly the last
    [m] pairs of [ps] in insertion order, hence exactly [m] pairs once more
    than [m] were added; and [GetAll] returns exactly those pairs.  As [ps]
    is arbitrary, the bound holds after every single [Add]. *)
Theorem history_bounded_keeps_latest (h0 : heap) (m : Z) (ps : list QAPair) :
  0 <= m ->
  let run := AddAll growslice (NewMemoryStorage h0 m) ps in
  let st := fst run in
  Forall (fun o => o = Returns None) (snd run) /\
  Z.of_nat (s_len (pairs (snd st))) <= m /\
  history st = lastN (Z.to_nat m) ps /\
  (m < Z.of_nat (length ps) -> Z.of_nat (length (history st)) = m) /\
  elems (fst (fst (GetAll st))) (fst (snd (GetAll st))) = lastN (Z.to_nat m) ps.
Proof.
  intros Hm run st.
  destruct (NewMemoryStorage_wf h0 m) as (Hwf0 & Hempty & Hmax0).
  destruct (AddAll_history (NewMemoryStorage h0 m) ps Hwf0) as [Hrets Hhist].
  { rewrite Hmax0. exact Hm. }
  { rewrite Hempty, Hmax0. cbn [length]. lia. }
  rewrite Hempty, Hmax0, app_nil_l in Hhist.
  destruct (AddAll_wf (NewMemoryStorage h0 m) ps Hwf0) as [Hwf _].
  fold run in Hrets, Hhist, Hwf. fold st in Hhist, Hwf.
  pose proof (length_elems _ _ Hwf) as Hlen. fold (history st) in Hlen.
  pose proof (length_lastN (Z.to_nat m) ps) as Hkeep.
  destruct (GetAll_spec st Hwf) as (_ & _ & _ & _ & Hcopy & _).
  split; [exact Hrets|]. split; [rewrite <- Hlen, Hhist; lia|].
  split; [exact Hhist|]. split; [rewrite Hhist; lia|].
  rewrite Hcopy. exact Hhist.
Qed.

(** Claim C8.  The slice returned by [GetAll] holds the history at the time
    of the call, and still holds exactly that after any sequence of [Add]
    calls on the store: it lies in an array of its own, which the store's
    slice never points to. *)
Theorem GetAll_returns_independent_copy (st : store) (ps : list QAPair) :
  store_wf st ->
  let st1 := fst (GetAll st) in
  let result := fst (snd (GetAll st)) in
  let st2 := fst (AddAll growslice st1 ps) in
  elems (fst st1) result = history st /\
  elems (fst st2) result = history st /\
  s_array result <> s_array (pairs (snd st2)).
Proof.
  intros Hwf st1 result st2.
  destruct (GetAll_spec st Hwf) as (_ & Hwf1 & _ & _ & Hcopy & Hin & Hne).
  fold st1 in Hwf1, Hcopy, Hin, Hne. fold result in Hcopy, Hin, Hne.
  split; [exact Hcopy|].
  assert (Hkept : forall qs, 
            arrayAt (fst (fst (AddAll growslice st1 qs))) (s_array result)
              = arrayAt (fst st1) (s_array result))
    by (intros qs; apply AddAll_frame; assumption).
  split.
  - rewrite <- Hcopy. apply elems_arrayAt, Hkept.
  - clear Hkept. subst st2. revert Hwf1 Hin Hne. generalize st1.
    induction ps as [|p qs IH]; intros st' Hwf' Hin' Hne'; [exact Hne'|].
    rewrite AddAll_cons; cbn [fst].
    destruct (Add_frame st' p Hwf') as (Hwf'' & _ & Hgrow & _ & Hwhere).
    apply IH; [exact Hwf''|lia|].
    destruct Hwhere as [-> | Hfresh]; [exact Hne'|lia].
Qed.

End StorageProofs.

(** ** The inference client *)

Lemma string_app_cons (x : ascii) (a b : string) :
  String x a +:+ b = String x (a +:+ b).
Proof. reflexivity. Qed.

Lemma string_app_assoc (a b c : string) : (a +:+ b) +:+ c = a +:+ (b +:+ c).
Proof.
  induction a as [|x a IH]; [reflexivity|].
  rewrite !string_app_cons, IH. reflexivity.
Qed.

Lemma string_app_nil_r (a : string) : a +:+ "" = a.
Proof.
  induction a as [|x a IH]; [reflexivity|].
  rewrite string_app_cons, IH. reflexivity.
Qed.

Lemma string_length_0 (s : string) : (String.length s =? 0)%nat = true -> s = "".
Proof. destruct s; [reflexivity|discriminate]. Qed.

Section OllamaProofs.

Variable E : Env.

Lemma not_sent_more {A} (l : list A) (x : A) : l <> l ++ [x].
Proof.
  intros H. apply (f_equal length) in H. rewrite length_app in H. cbn in H. lia.
Qed.

(** The builder's content when the loop is left. *)
Lemma scanLoop_answer evs err acc :
  json_Unmarshal E "" = None ->
  fst (scanLoop E evs err acc) = acc +:+ aggregated E (tokensOf evs).
Proof.
  intros Hempty. revert err acc.
  induction evs as [|[line|e] rest IH]; intros err acc.
  - cbn. symmetry. apply string_app_nil_r.
  - change (tokensOf (Token line :: rest)) with (line :: tokensOf rest).
    cbn [scanLoop aggregated].
    destruct (String.length line =? 0)%nat eqn:Hlen.
    + apply string_length_0 in Hlen. subst line. rewrite Hempty. apply IH.
    + destruct (json_Unmarshal E line) as [frag|]; [|apply IH].
      destruct (Done frag).
      * cbn [fst]. rewrite string_app_nil_r. reflexivity.
      * rewrite IH. apply string_app_assoc.
  - change (tokensOf (ReadError e :: rest)) with (tokensOf rest).
    cbn [scanLoop]. apply IH.
Qed.

(** What [GenerateAnswer] does once the request has gone out. *)
Lemma GenerateAnswer_sent c q sent0 req :
  fst (GenerateAnswer E c q sent0) = sent0 ++ [req] ->
  snd (GenerateAnswer E c q sent0) =
    match client_Do E req with
    | inr _ => (fallbackAnswer, None)
    | inl resp =>
        if negb (StatusCode resp =? StatusOK) then (fallbackAnswer, None)
        else if scanFailed (Scanner_Err (snd (scanLoop E (Body resp) None "")))
        then (fallbackAnswer, None)
        else if String.eqb (TrimSpace (fst (scanLoop E (Body resp) None ""))) ""
        then (fallbackAnswer, None)
        else (TrimSpace (fst (scanLoop E (Body resp) None "")), None)
    end.
Proof.
  unfold GenerateAnswer.
  destruct (1000 <? String.length q)%nat;
    [intros H; cbn [fst] in H; destruct (not_sent_more _ _ H)|].
  destruct (json_Marshal E _) as [jsonData|err];
    [|intros H; cbn [fst] in H; destruct (not_sent_more _ _ H)].
  destruct (http_NewRequest E _ _ _) as [req0|err];
    [|intros H; cbn [fst] in H; destruct (not_sent_more _ _ H)].
  set (req1 := mkHTTPRequest _ _ _ _).
  assert (Hreq : forall r : (string * option error),
            fst (sent0 ++ [req1], r) = sent0 ++ [req] -> req1 = req).
  { intros r H. cbn [fst] in H. apply app_inv_head in H. congruence. }
  destruct (client_Do E req1) as [resp|err] eqn:Hdo.
  - destruct (negb (StatusCode resp =? StatusOK)) eqn:Hst.
    + intros H. apply Hreq in H. subst req. rewrite Hdo, Hst. reflexivity.
    + destruct (scanLoop E (Body resp) None "") as [answer serr] eqn:Hloop.
      destruct (scanFailed (Scanner_Err serr)) eqn:Hfail.
      * intros H. apply Hreq in H. subst req. rewrite Hdo, Hst, Hloop.
        cbn [fst snd]. rewrite Hfail. reflexivity.
      * destruct (String.eqb (TrimSpace answer) "") eqn:Hres;
          intros H; apply Hreq in H; subst req; rewrite Hdo, Hst, Hloop;
          cbn [fst snd]; rewrite Hfail, Hres; reflexivity.
  - intros H. apply Hreq in H. subst req. rewrite Hdo. reflexivity.
Qed.


(** Claim C5, amended.  When the call succeeds with status 200, the scanner
    reports no error and the result is not empty, [GenerateAnswer] returns
    the concatenation, in arrival order, of the text pieces of the lines
    that parse, up to and including the first one whose completion flag is
    set (lines that do not parse are skipped), with leading and trailing
    white space removed; the error is [nil].  The decoder is any decoder
    that rejects the empty line. *)
Theorem answer_is_trimmed_concatenation c q sent0 req resp :
  json_Unmarshal E "" = None ->
  fst (GenerateAnswer E c q sent0) = sent0 ++ [req] ->
  client_Do E req = inl resp ->
  StatusCode resp = StatusOK ->
  scanFailed (Scanner_Err (snd (scanLoop E (Body resp) None ""))) = false ->
  TrimSpace (aggregated E (tokensOf (Body resp))) <> "" ->
  snd (GenerateAnswer E c q sent0) =
    (TrimSpace (aggregated E (tokensOf (Body resp))), None).
Proof.
  intros Hempty Hsent Hdo Hok Hscan Hne.
  rewrite (GenerateAnswer_sent _ _ _ _ Hsent), Hdo, Hok, Hscan.
  rewrite (scanLoop_answer _ _ _ Hempty). cbn [negb Z.eqb StatusOK Pos.eqb].
  change ("" +:+ aggregated E (tokensOf (Body resp)))
    with (aggregated E (tokensOf (Body resp))).
  apply String.eqb_neq in Hne. rewrite Hne. reflexivity.
Qed.

End OllamaProofs.

(** ** The request handler *)

Section HandlerProofs.

Variable E : Env.
Variable growslice : nat -> nat -> nat.
Variable ollama : OllamaClient.

(** [Add] never returns an error, and returns when the capacity is not
    negative. *)
Lemma Add_outcome st pair :
  (forall e, snd (Add growslice st pair) <> Returns (Some e)) /\
  (0 <= maxSize (snd st) -> snd (Add growslice st pair) = Returns None).
Proof.
  destruct st as [h s]. unfold Add.
  destruct (append growslice h (pairs s) pair) as [h1 ps].
  destruct (Z.gtb_spec (Z.of_nat (s_len ps)) (maxSize s)) as [Hover|Hfits];
    cbn [fst snd]; [|split; [discriminate|reflexivity]].
  unfold sliceFrom.
  destruct (Z.ltb_spec (Z.of_nat (s_len ps) - maxSize s) 0) as [?|H0];
    [lia|].
  destruct (Z.ltb_spec (Z.of_nat (s_len ps)) (Z.of_nat (s_len ps) - maxSize s))
    as [H1|H1]; cbn [orb snd].
  - split; [discriminate|]. lia.
  - split; [discriminate|reflexivity].
Qed.

(** The handler after a request has passed the content-type check and has
    been decoded. *)
Lemma askHandler_decoded r st req :
  Contains (Header_Get (Header r) "Content-Type") "application/json" = true ->
  json_Decode E (ReqBody r) = Some req ->
  askHandler E growslice ollama r st =
    let question := AskRequest_Question req in
    if (1000 <? String.length question)%nat then
      (st, respondWithError "Question too long (max 1000 characters)"
                            StatusBadRequest)
    else if String.eqb (TrimSpace question) "" then
      (st, respondWithError "Question cannot be empty" StatusBadRequest)
    else
      let '(sent', (answer, err)) := GenerateAnswer E ollama question (sent st) in
      match err with
      | Some e =>
          (mkAppState (storage st) sent'
             (logged st ++ ["Error generating answer: " +:+ error_Error e]),
           respondWithError "Failed to generate answer" StatusInternalServerError)
      | None =>
          let '(storage', added) :=
            Add growslice (storage st) (mkQAPair question answer) in
          match added with
          | Panics msg => (mkAppState storage' sent' (logged st), Panics msg)
          | Returns (Some e) =>
              (mkAppState storage' sent'
                 (logged st ++ ["Error storing Q&A pair: " +:+ error_Error e]),
               respondWithJSON (AskResponse answer) StatusOK)
          | Returns None =>
              (mkAppState storage' sent' (logged st),
               respondWithJSON (AskResponse answer) StatusOK)
          end
      end.
Proof.
  intros Hct Hdec. unfold askHandler. rewrite Hct, Hdec. reflexivity.
Qed.

(** Claim C3, amended.  For a request with a JSON content type that decodes
    to a question: a question of more than 1000 bytes, counted before
    trimming, is rejected with [Question too long (max 1000 characters)];
    a question of at most 1000 bytes that is empty after trimming is
    rejected with [Question cannot be empty]; and a question of at most
    1000 bytes that is not empty after trimming is accepted: the handler
    goes on to [GenerateAnswer] with it and does not answer 400. *)
Theorem validation_by_untrimmed_length r st req :
  Contains (Header_Get (Header r) "Content-Type") "application/json" = true ->
  json_Decode E (ReqBody r) = Some req ->
  let question := AskRequest_Question req in
  ((1000 < String.length question)%nat ->
     askHandler E growslice ollama r st =
       (st, respondWithError "Question too long (max 1000 characters)"
                             StatusBadRequest)) /\
  ((String.length question <= 1000)%nat -> TrimSpace question = "" ->
     askHandler E growslice ollama r st =
       (st, respondWithError "Question cannot be empty" StatusBadRequest)) /\
  ((String.length question <= 1000)%nat -> TrimSpace question <> "" ->
     sent (fst (askHandler E growslice ollama r st)) = fst (GenerateAnswer E ollama question (sent st)) /\
     forall w, snd (askHandler E growslice ollama r st) = Returns w -> w_status w <> StatusBadRequest).
Proof.
  intros Hct Hdec question.
  rewrite (askHandler_decoded r st req Hct Hdec). fold question. cbv zeta.
  split; [|split].
  - intros Hlong. apply Nat.ltb_lt in Hlong. rewrite Hlong. reflexivity.
  - intros Hlen Hempty. apply Nat.ltb_ge in Hlen. rewrite Hlen.
    apply String.eqb_eq in Hempty. rewrite Hempty. reflexivity.
  - intros Hlen Hne. apply Nat.ltb_ge in Hlen. rewrite Hlen.
    apply String.eqb_neq in Hne. rewrite Hne.
    destruct (GenerateAnswer E ollama question (sent st)) as [sent' [answer [e|]]].
    + split; [reflexivity|]. intros w [= <-]. discriminate.
    + destruct (Add growslice (storage st) (mkQAPair question answer))
        as [storage' [[e|]|msg]]; (split; [reflexivity|]);
        intros w Hw; try discriminate; injection Hw as <-; discriminate.
Qed.

(** Claim C9.  [GenerateAnswer] never returns its [question too long] error
    for a question of at most 1000 bytes; and whenever [askHandler] answers
    500, the request was decoded to a question of at most 1000 bytes for
    which [GenerateAnswer] returned an error other than [question too long].
    So the length check of [GenerateAnswer] cannot be the source of a 500
    on [/ask]. *)
Theorem length_check_unreachable_after_validation r st :
  (forall q sent0, (String.length q <= 1000)%nat ->
     snd (snd (GenerateAnswer E ollama q sent0))
       <> Some (errorString "question too long")) /\
  (forall w, snd (askHandler E growslice ollama r st) = Returns w ->
     w_status w = StatusInternalServerError ->
     exists req e,
       json_Decode E (ReqBody r) = Some req /\
       (String.length (AskRequest_Question req) <= 1000)%nat /\
       snd (snd (GenerateAnswer E ollama (AskRequest_Question req) (sent st)))
         = Some e /\
       e <> errorString "question too long").
Proof.
  assert (Hgen : forall q sent0, (String.length q <= 1000)%nat ->
     snd (snd (GenerateAnswer E ollama q sent0))
       <> Some (errorString "question too long")).
  { intros q sent0 Hlen. apply Nat.ltb_ge in Hlen.
    unfold GenerateAnswer. rewrite Hlen.
    destruct (json_Marshal E _) as [jsonData|err]; [|discriminate].
    destruct (http_NewRequest E _ _ _) as [req0|err]; [|discriminate].
    destruct (client_Do E _) as [resp|err]; [|discriminate].
    destruct (negb _); [discriminate|].
    destruct (scanLoop E (Body resp) None "") as [answer serr].
    destruct (scanFailed _); [discriminate|].
    destruct (String.eqb _ _); discriminate. }
  split; [exact Hgen|].
  intros w. unfold askHandler.
  destruct (negb (Contains _ _)); [intros [= <-]; discriminate|].
  destruct (json_Decode E (ReqBody r)) as [req|]; [|intros [= <-]; discriminate].
  destruct (Nat.ltb_spec 1000 (String.length (AskRequest_Question req)))
    as [Hlong|Hlen]; [intros [= <-]; discriminate|].
  destruct (String.eqb _ _); [intros [= <-]; discriminate|].
  pose proof (Hgen (AskRequest_Question req) (sent st) Hlen) as Hnot.
  destruct (GenerateAnswer E ollama (AskRequest_Question req) (sent st))
    as [sent' [answer [e|]]] eqn:Hcall.
  - intros _ _. exists req, e. rewrite Hcall. cbn [snd] in *.
    split; [reflexivity|]. split; [exact Hlen|]. split; [reflexivity|].
    intros ->. apply Hnot. reflexivity.
  - destruct (Add growslice (storage st) _) as [storage' [[e|]|msg]];
      intros Hw; try discriminate; injection Hw as <-; discriminate.
Qed.

(** Claim C10.  For every pair and every store, [Add] never returns an
    error that is not [nil]; with a capacity that is not negative it
    returns, and returns [nil]; and the log of [askHandler] after a request
    is the log before it, possibly with one [Error generating answer] line:
    the branch that logs a storage failure is never taken. *)
Theorem Add_returns_nil st pair r ast :
  (forall e, snd (Add growslice st pair) <> Returns (Some e)) /\
  (0 <= maxSize (snd st) -> snd (Add growslice st pair) = Returns None) /\
  (logged (fst (askHandler E growslice ollama r ast)) = logged ast \/
   exists e, logged (fst (askHandler E growslice ollama r ast))
               = logged ast ++ ["Error generating answer: " +:+ error_Error e]).
Proof.
  destruct (Add_outcome st pair) as [Hnever Hnil].
  split; [exact Hnever|]. split; [exact Hnil|].
  unfold askHandler.
  destruct (negb (Contains _ _)); [left; reflexivity|].
  destruct (json_Decode E (ReqBody r)) as [req|]; [|left; reflexivity].
  destruct (_ <? _)%nat; [left; reflexivity|].
  destruct (String.eqb _ _); [left; reflexivity|].
  destruct (GenerateAnswer E ollama (AskRequest_Question req) (sent ast))
    as [sent' [answer [e|]]]; [right; exists e; reflexivity|].
  pose proof (Add_outcome (storage ast) (mkQAPair (AskRequest_Question req) answer))
    as [Hnever' _].
  destruct (Add growslice (storage ast) _) as [storage' [[e|]|msg]];
    [|left; reflexivity..].
  destruct (Hnever' e). reflexivity.
Qed.

(** Claim C6.  When [POST /ask] is answered with 400 (validation) or 429
    (admission control), the application state - history store, requests
    sent to the inference endpoint, log - is what it was before the
    request.  In particular an admitted request with a JSON content type
    whose question is empty gets 400 with the error
    [Question cannot be empty] and leaves the history store unchanged. *)
Theorem rejection_has_no_side_effects rl now r st :
  (forall w, snd (snd (serveAsk E growslice ollama rl now r st)) = Returns w ->
     w_status w = StatusBadRequest \/ w_status w = StatusTooManyRequests ->
     fst (snd (serveAsk E growslice ollama rl now r st)) = st) /\
  (forall req,
     snd (getLimiter_Allow rl (clientIP r) now) = true ->
     Contains (Header_Get (Header r) "Content-Type") "application/json" = true ->
     json_Decode E (ReqBody r) = Some req ->
     AskRequest_Question req = "" ->
     snd (serveAsk E growslice ollama rl now r st) =
       (st, respondWithError "Question cannot be empty" StatusBadRequest)).
Proof.
  unfold serveAsk, rateLimitMiddleware.
  destruct (getLimiter_Allow rl (clientIP r) now) as [rl' ok].
  split.
  - destruct ok; cbn [negb fst snd]; [|reflexivity].
    intros w. unfold askHandler.
    destruct (negb (Contains _ _)); [reflexivity|].
    destruct (json_Decode E (ReqBody r)) as [req|]; [|reflexivity].
    destruct (_ <? _)%nat; [reflexivity|].
    destruct (String.eqb _ _); [reflexivity|].
    destruct (GenerateAnswer E ollama (AskRequest_Question req) (sent st))
      as [sent' [answer [e|]]].
    + intros [= <-] [H|H]; discriminate H.
    + destruct (Add growslice (storage st) _) as [storage' [[e|]|msg]];
        intros Hw; try discriminate; injection Hw as <-;
        intros [H|H]; discriminate H.
  - intros req Hok Hct Hdec Hq. cbn [snd] in Hok. subst ok. cbn [negb snd].
    rewrite (askHandler_decoded r st req Hct Hdec), Hq. reflexivity.
Qed.

End HandlerProofs.

(** ** Admission control *)

Section LimiterProofs.

Lemma wrap64_small z : - 2 ^ 63 <= z < 2 ^ 63 -> wrap64 z = z.
Proof. intros H. unfold wrap64. rewrite Z.mod_small by lia. lia. Qed.

(** A bucket holding [j] whole tokens: the next call is admitted exactly
    when [j] is at least one, and then one token is gone. *)
Lemma getLimiter_Allow_bucket rl ip r j now :
  0 <= r -> 0 <= j <= 2 * r -> bucketAt rl ip r j now ->
  snd (getLimiter_Allow rl ip now) = (1 <=? j) /\
  bucketAt (fst (getLimiter_Allow rl ip now)) ip r (if 1 <=? j then j - 1 else j) now.
Proof.
  intros Hr Hj (l & Hl & Hlim & Hburst & Hstate).
  unfold getLimiter_Allow, getLimiter. rewrite Hl. unfold Allow.
  assert (Hav : available l now = j * nano).
  { unfold available. rewrite Hlim, Hburst. unfold nano in *.
    destruct Hstate as [[-> ->] | (-> & -> & ->)]; nia. }
  rewrite Hav.
  destruct (Z.leb_spec 1 j) as [Hj1|Hj0].
  - destruct (Z.leb_spec nano (j * nano)) as [_|Hbad]; [|unfold nano in Hbad; lia].
    cbn [fst snd]. split; [reflexivity|].
    eexists. cbn [limiters]. rewrite lookup_insert_eq. split; [reflexivity|].
    cbn [lim_limit lim_burst lim_tokens lim_last].
    repeat split; try assumption. left. split; [lia|reflexivity].
  - destruct (Z.leb_spec nano (j * nano)) as [Hbad|_]; [unfold nano in Hbad; lia|].
    cbn [fst snd]. split; [reflexivity|].
    exists l. cbn [limiters]. rewrite lookup_insert_eq. repeat split; assumption.
Qed.

Lemma burstOf_S rl ip now n :
  burstOf rl ip now (S n) =
    (fst (burstOf (fst (getLimiter_Allow rl ip now)) ip now n),
     snd (getLimiter_Allow rl ip now)
       :: snd (burstOf (fst (getLimiter_Allow rl ip now)) ip now n)).
Proof.
  cbn [burstOf]. destruct (getLimiter_Allow rl ip now) as [rl1 ok]. cbn [fst snd].
  destruct (burstOf rl1 ip now n). reflexivity.
Qed.

Lemma burstOf_bucket ip r now n : forall j rl,
  0 <= r -> 0 <= j <= 2 * r -> bucketAt rl ip r j now ->
  snd (burstOf rl ip now n) =
    replicate (Nat.min n (Z.to_nat j)) true ++ replicate (n - Z.to_nat j) false /\
  bucketAt (fst (burstOf rl ip now n)) ip r (Z.max 0 (j - Z.of_nat n)) now.
Proof.
  induction n as [|n IH]; intros j rl0 Hr Hj Hb.
  - cbn [burstOf fst snd]. split; [reflexivity|].
    replace (Z.max 0 (j - Z.of_nat 0)) with j by lia. exact Hb.
  - rewrite burstOf_S; cbn [fst snd].
    destruct (getLimiter_Allow_bucket rl0 ip r j now Hr Hj Hb) as [Hok Hb1].
    rewrite Hok. destruct (Z.leb_spec 1 j) as [Hj1|Hj0].
    + destruct (IH (j - 1) _ Hr ltac:(lia) Hb1) as [Hoks Hb2].
      rewrite Hoks. split.
      * replace (Nat.min (S n) (Z.to_nat j)) with (S (Nat.min n (Z.to_nat (j - 1))))
          by lia.
        replace (S n - Z.to_nat j)%nat with (n - Z.to_nat (j - 1))%nat by lia.
        reflexivity.
      * replace (Z.max 0 (j - Z.of_nat (S n))) with (Z.max 0 (j - 1 - Z.of_nat n))
          by lia.
        exact Hb2.
    + destruct (IH j _ Hr Hj Hb1) as [Hoks Hb2].
      rewrite Hoks. assert (j = 0) by lia. subst j. split.
      * cbn. rewrite Nat.min_0_r, Nat.sub_0_r. reflexivity.
      * replace (Z.max 0 (0 - Z.of_nat (S n))) with (Z.max 0 (0 - Z.of_nat n)) by lia.
        exact Hb2.
Qed.

(** On first sight a full bucket of [2 * rate] tokens is stored, and the
    call goes on as if it had been there. *)
Lemma getLimiter_fresh rl ip now :
  0 <= rl_rate rl < 2 ^ 62 -> limiters rl !! ip = None ->
  snd (getLimiter rl ip now)
    = mkLimiter (rl_rate rl) (2 * rl_rate rl) (2 * rl_rate rl * nano) 0 /\
  bucketAt (fst (getLimiter rl ip now)) ip (rl_rate rl) (2 * rl_rate rl) now /\
  getLimiter_Allow rl ip now = getLimiter_Allow (fst (getLimiter rl ip now)) ip now.
Proof.
  intros Hrate Hnone. unfold getLimiter_Allow, getLimiter. rewrite Hnone.
  cbn [fst snd limiters]. rewrite lookup_insert_eq.
  rewrite wrap64_small by lia. unfold NewLimiter.
  replace (rl_rate rl * 2) with (2 * rl_rate rl) by lia.
  split; [reflexivity|]. split; [|reflexivity].
  eexists. cbn [limiters]. rewrite lookup_insert_eq. split; [reflexivity|].
  cbn [lim_limit lim_burst lim_tokens lim_last]. repeat split. right. repeat split.
Qed.

(** Once the bucket is empty, a later call is admitted exactly when the
    refill since the burst amounts to a whole token. *)
Lemma getLimiter_Allow_empty rl ip r now t :
  0 <= r -> now <= t -> bucketAt rl ip r 0 now ->
  snd (getLimiter_Allow rl ip t) = true <-> nano <= (t - now) * r.
Proof.
  intros Hr Ht (l & Hl & Hlim & Hburst & Hstate).
  unfold getLimiter_Allow, getLimiter. rewrite Hl. unfold Allow, available.
  rewrite Hlim, Hburst.
  destruct Hstate as [[-> ->] | (-> & H0 & ->)].
  - rewrite (Z.max_r 0 (t - now)), (Z.max_r 0 r) by lia.
    match goal with
    | |- context [nano <=? ?x] => destruct (Z.leb_spec nano x) as [Hok|Hno]
    end; cbn [snd]; unfold nano in *.
    + split; [lia|reflexivity].
    + split; [discriminate|]. intros Hrefill. exfalso.
      assert (r = 0 \/ 1 <= r) as [-> | Hr1] by lia; lia.
  - assert (r = 0) by lia. subst r.
    match goal with
    | |- context [nano <=? ?x] => destruct (Z.leb_spec nano x) as [Hok|Hno]
    end; cbn [snd]; unfold nano in *.
    + exfalso. lia.
    + split; [discriminate|lia].
Qed.

(** Claim C4.  For a rate between 0 and 2^62 and an identity without a
    limiter: [getLimiter] makes a bucket of capacity [2 * rate] refilled at
    [rate] tokens per second; of [n] calls in a row at one instant the first
    [2 * rate] are admitted and all later ones refused; and after more than
    [2 * rate] such calls, a call at a later time [t] is admitted exactly
    when the refill since the burst, [(t - now) * rate] billionths of a
    token, has reached a whole token. *)
Theorem fresh_identity_burst rl ip now rate :
  0 <= rate < 2 ^ 62 -> rl_rate rl = rate -> limiters rl !! ip = None ->
  snd (getLimiter rl ip now) = mkLimiter rate (2 * rate) (2 * rate * nano) 0 /\
  (forall n, snd (burstOf rl ip now n) =
     replicate (Nat.min n (Z.to_nat (2 * rate))) true
       ++ replicate (n - Z.to_nat (2 * rate)) false) /\
  (forall n t, (Z.to_nat (2 * rate) < n)%nat -> now <= t ->
     snd (getLimiter_Allow (fst (burstOf rl ip now n)) ip t) = true
     <-> nano <= (t - now) * rate).
Proof.
  intros Hrate <- Hnone.
  destruct (getLimiter_fresh rl ip now Hrate Hnone) as (Hnew & Hfull & Hsame).
  assert (Hrun : forall n, burstOf rl ip now (S n)
                   = burstOf (fst (getLimiter rl ip now)) ip now (S n)).
  { intros n. rewrite !burstOf_S, Hsame. reflexivity. }
  split; [exact Hnew|]. split.
  - intros [|n]; [reflexivity|]. rewrite Hrun.
    apply (burstOf_bucket ip (rl_rate rl) now (S n) (2 * rl_rate rl) _);
      [lia|lia|exact Hfull].
  - intros [|n] t Hn Ht; [lia|]. rewrite Hrun.
    apply (getLimiter_Allow_empty _ ip (rl_rate rl) now t); [lia|exact Ht|].
    pose proof (burstOf_bucket ip (rl_rate rl) now (S n) (2 * rl_rate rl)
                  (fst (getLimiter rl ip now)) ltac:(lia) ltac:(lia) Hfull)
      as [_ Hb].
    replace (Z.max 0 (2 * rl_rate rl - Z.of_nat (S n))) with 0 in Hb by lia.
    exact Hb.
Qed.

(** Claim C7.  The identity under which [rateLimitMiddleware] limits a
    request is the first value of the [X-Forwarded-For] header when the
    header is present and that value is not empty, and the peer address
    [RemoteAddr] otherwise; the limiter map is looked up and updated under
    that key and no other. *)
Theorem identity_is_forwarded_or_peer rl now next r st :
  let identity :=
    match forwardedFor r with
    | Some v => if decide (v = "") then RemoteAddr r else v
    | None => RemoteAddr r
    end in
  clientIP r = identity /\
  fst (rateLimitMiddleware rl now next r st) = fst (getLimiter_Allow rl identity now) /\
  is_Some (limiters (fst (rateLimitMiddleware rl now next r st)) !! identity) /\
  (forall other, other <> identity ->
     limiters (fst (rateLimitMiddleware rl now next r st)) !! other
       = limiters rl !! other).
Proof.
  intros identity.
  assert (Hid : clientIP r = identity).
  { unfold clientIP, identity, forwardedFor, Header_Get.
    destruct (Header r !! "X-Forwarded-For") as [[|v vs]|]; try reflexivity.
    destruct (String.eqb_spec v "") as [->|Hne]; cbn [negb].
    - rewrite decide_True by reflexivity. reflexivity.
    - rewrite decide_False by exact Hne. reflexivity. }
  split; [exact Hid|].
  unfold rateLimitMiddleware. rewrite Hid.
  assert (Hkey : is_Some (limiters (fst (getLimiter_Allow rl identity now)) !! identity) /\
                 forall other, other <> identity ->
                   limiters (fst (getLimiter_Allow rl identity now)) !! other
                     = limiters rl !! other).
  { unfold getLimiter_Allow, getLimiter.
    destruct (limiters rl !! identity) as [l|] eqn:Hl;
      destruct (Allow _ now) as [ok l']; cbn [fst limiters].
    - split; [rewrite lookup_insert_eq; eauto|].
      intros other Hne. rewrite lookup_insert_ne by congruence. reflexivity.
    - split; [rewrite lookup_insert_eq; eauto|].
      intros other Hne. rewrite !lookup_insert_ne by congruence. reflexivity. }
  destruct (getLimiter_Allow rl identity now) as [rl' ok].
  destruct ok; cbn [negb fst] in *; (split; [reflexivity|exact Hkey]).
Qed.

End LimiterProofs.

(** ** The model at work *)


(** Capacity 2, three pairs added: the last two remain. *)
Lemma history_bounded_keeps_latest_witness :
  history (fst (AddAll doubling (NewMemoryStorage [] 2)
                  [pairOf "one" "a"; pairOf "two" "b"; pairOf "three" "c"]))
    = [pairOf "two" "b"; pairOf "three" "c"].
Proof.
  apply (history_bounded_keeps_latest doubling [] 2
           [pairOf "one" "a"; pairOf "two" "b"; pairOf "three" "c"]).
  lia.
Defined.

(** Claim C3 fails as stated: a question of 1000 spaces followed by one
    letter has trimmed length 1, yet it is rejected as too long. *)
Lemma trimmed_length_does_not_decide :
  (0 < String.length (TrimSpace paddedQuestion) <= 1000)%nat /\
  askHandler (mockEnv 200 []) doubling mockClient
             (askRequest "192.0.2.1:4000" paddedQuestion) emptyApp
    = (emptyApp,
       respondWithError "Question too long (max 1000 characters)" StatusBadRequest).
Proof. vm_compute. split; [lia|reflexivity]. Qed.

(** A question of three spaces is rejected as empty. *)
Lemma validation_by_untrimmed_length_witness :
  askHandler (mockEnv 200 []) doubling mockClient
             (askRequest "192.0.2.1:4000" "   ") emptyApp
    = (emptyApp, respondWithError "Question cannot be empty" StatusBadRequest).
Proof.
  apply (validation_by_untrimmed_length (mockEnv 200 []) doubling mockClient
           (askRequest "192.0.2.1:4000" "   ") emptyApp (mkAskRequest "   ")).
  - reflexivity.
  - reflexivity.
  - cbn. lia.
  - reflexivity.
Defined.

(** Claim C5 fails as stated: for the single fragment [ Yes. ] with its
    completion flag set, the concatenation of the text pieces has a space
    on either side and the answer returned has none. *)
Lemma answer_is_not_the_plain_concatenation :
  aggregated (mockEnv 200 yesStream) (tokensOf yesStream) = " Yes. " /\
  snd (GenerateAnswer (mockEnv 200 yesStream) mockClient "Does this work?" [])
    = ("Yes.", None) /\
  "Yes." <> " Yes. ".
Proof. vm_compute. repeat split. discriminate. Qed.

(** Two fragments around a malformed and an empty line, and a fragment
    after the completed one: the answer is the trimmed text of the two. *)
Lemma answer_is_trimmed_concatenation_witness :
  snd (GenerateAnswer (mockEnv 200 brokenStream) mockClient "Does this work?" [])
    = ("Yes.", None).
Proof.
  eapply (answer_is_trimmed_concatenation (mockEnv 200 brokenStream) mockClient
            "Does this work?" [] _ (mkHTTPResponse 200 brokenStream)).
  - reflexivity.
  - reflexivity.
  - reflexivity.
  - reflexivity.
  - reflexivity.
  - vm_compute. discriminate.
Defined.

(** An empty question: 400, and the application state is untouched. *)
Lemma rejection_has_no_side_effects_witness :
  snd (serveAsk (mockEnv 200 yesStream) doubling mockClient
                (newRateLimiter 10) 0 (askRequest "192.0.2.1:4000" "") emptyApp)
    = (emptyApp, respondWithError "Question cannot be empty" StatusBadRequest).
Proof.
  apply (rejection_has_no_side_effects (mockEnv 200 yesStream) doubling mockClient
           (newRateLimiter 10) 0 (askRequest "192.0.2.1:4000" "") emptyApp)
    with (req := mkAskRequest "").
  - vm_compute. reflexivity.
  - reflexivity.
  - reflexivity.
  - reflexivity.
Defined.

(** Three pairs stored in an array with room for a fourth, a [GetAll], then
    two more [Add]s: the slice handed out still shows the three pairs. *)
Lemma GetAll_returns_independent_copy_witness :
  elems (fst (fst (AddAll doubling (fst (GetAll threeAdded))
                     [pairOf "four" "d"; pairOf "five" "e"])))
        (fst (snd (GetAll threeAdded)))
    = [pairOf "one" "a"; pairOf "two" "b"; pairOf "three" "c"].
Proof.
  apply (GetAll_returns_independent_copy doubling threeAdded
           [pairOf "four" "d"; pairOf "five" "e"]).
  vm_compute. lia.
Defined.

(** With an environment whose [json_Marshal] fails, the handler answers
    500, and the error is not the one of the length check. *)
Lemma length_check_unreachable_after_validation_witness :
  exists req e,
    json_Decode brokenEnv (ReqBody (askRequest "192.0.2.1:4000" "Who is there?"))
      = Some req /\
    (String.length (AskRequest_Question req) <= 1000)%nat /\
    snd (snd (GenerateAnswer brokenEnv mockClient (AskRequest_Question req) []))
      = Some e /\
    e <> errorString "question too long".
Proof.
  apply (proj2 (length_check_unreachable_after_validation brokenEnv doubling
                  mockClient (askRequest "192.0.2.1:4000" "Who is there?") emptyApp)
               (mkWritten StatusInternalServerError
                  (ErrorResponse "Failed to generate answer"))).
  - reflexivity.
  - reflexivity.
Defined.

(** [Add] on a new store of capacity 1000 returns [nil]. *)
Lemma Add_returns_nil_witness :
  snd (Add doubling (NewMemoryStorage [] 1000) (pairOf "one" "a")) = Returns None.
Proof.
  apply (Add_returns_nil brokenEnv doubling mockClient
           (NewMemoryStorage [] 1000) (pairOf "one" "a")
           (askRequest "192.0.2.1:4000" "") emptyApp).
  cbn. lia.
Defined.

(** Rate 10: of 25 calls at one instant, 20 are admitted. *)
Lemma fresh_identity_burst_witness :
  snd (burstOf (newRateLimiter 10) "203.0.113.7" 0 25)
    = replicate 20 true ++ replicate 5 false.
Proof.
  apply (fresh_identity_burst (newRateLimiter 10) "203.0.113.7" 0 10).
  - lia.
  - reflexivity.
  - reflexivity.
Defined.

(** With a negative capacity the slice expression of [Add] is out of range:
    the call panics, after the pair has been appended. *)
Example Add_negative_capacity_panics :
  snd (Add doubling (NewMemoryStorage [] (-1)) (pairOf "one" "a"))
    = Panics "slice bounds out of range" /\
  history (fst (Add doubling (NewMemoryStorage [] (-1)) (pairOf "one" "a")))
    = [pairOf "one" "a"].
Proof. vm_compute. split; reflexivity. Qed.

(** A forwarded-for header takes precedence over the peer address. *)
Lemma identity_is_forwarded_or_peer_witness :
  clientIP (mkRequest "POST" "/ask" "192.0.2.1:4000"
              {[ "X-Forwarded-For" := ["203.0.113.7"] ]} "")
    = "203.0.113.7".
Proof.
  etransitivity.
  - apply (identity_is_forwarded_or_peer (newRateLimiter 10) 0
             (fun _ st => (st, respondWithJSON (AskResponse "") StatusOK))
             (mkRequest "POST" "/ask" "192.0.2.1:4000"
                {[ "X-Forwarded-For" := ["203.0.113.7"] ]} "")
             emptyApp).
  - vm_compute. reflexivity.
Defined.

Section StorageExtras.

Variable growslice : nat -> nat -> nat.

(** With a negative capacity [Add] appends and then panics. *)
Lemma Add_negative st p :
  store_wf st -> maxSize (snd st) < 0 ->
  snd (Add growslice st p) = Panics "slice bounds out of range" /\
  history (fst (Add growslice st p)) = history st ++ [p].
Proof.
  destruct st as [h s]. unfold store_wf, history; cbn [fst snd]. intros Hwf Hneg.
  pose proof (append_spec growslice h (pairs s) p Hwf) as Happ.
  unfold Add. destruct (append growslice h (pairs s) p) as [h1 ps].
  destruct Happ as (Hel & _ & Hlen1 & _).
  destruct (Z.gtb_spec (Z.of_nat (s_len ps)) (maxSize s)) as [_|Hbad]; [|lia].
  unfold sliceFrom.
  destruct (Z.ltb_spec (Z.of_nat (s_len ps) - maxSize s) 0) as [?|_]; [lia|].
  destruct (Z.ltb_spec (Z.of_nat (s_len ps)) (Z.of_nat (s_len ps) - maxSize s))
    as [_|?]; [|lia].
  cbn [orb fst snd pairs]. split; [reflexivity|exact Hel].
Qed.

(** X1.  With a negative capacity every [Add] appends its pair and then
    panics on the slice expression, so nothing is ever dropped: after any
    sequence of calls the log holds everything that was there and
    everything that was added. *)
Theorem negative_capacity_never_trims st ps :
  store_wf st -> maxSize (snd st) < 0 ->
  Forall (fun o => o = Panics "slice bounds out of range")
         (snd (AddAll growslice st ps)) /\
  history (fst (AddAll growslice st ps)) = history st ++ ps.
Proof.
  revert st; induction ps as [|p ps IH]; intros st Hwf Hneg.
  - cbn [AddAll fst snd]. rewrite app_nil_r. split; [constructor|reflexivity].
  - rewrite AddAll_cons; cbn [fst snd].
    destruct (Add_negative st p Hwf Hneg) as [Hpanic Hhist].
    destruct (Add_frame growslice st p Hwf) as (Hwf1 & Hmax1 & _).
    destruct (IH (fst (Add growslice st p)) Hwf1) as [Hall Hfinal];
      [rewrite Hmax1; exact Hneg|].
    split; [constructor; assumption|].
    rewrite Hfinal, Hhist, <- app_assoc. reflexivity.
Qed.

(** An assignment through a slice leaves every other array as it was. *)
Lemma setIndex_frame h s i x a :
  a <> s_array s -> arrayAt (fst (setIndex h s i x)) a = arrayAt h a.
Proof.
  intros Hne. unfold setIndex. destruct (_ || _); cbn [fst]; [reflexivity|].
  apply arrayAt_alter_ne. congruence.
Qed.

Lemma setAll_frame h s ws a :
  a <> s_array s -> arrayAt (setAll h s ws) a = arrayAt h a.
Proof.
  intros Hne. revert h; induction ws as [|[i x] ws IH]; intros h; [reflexivity|].
  cbn [setAll]. rewrite IH. apply setIndex_frame, Hne.
Qed.

(** X2.  Whatever a caller assigns through the slice that [GetAll]
    returned, at any indices, the store's history stays what it was. *)
Theorem writes_through_copy_leave_history st ws :
  store_wf st ->
  let st1 := fst (GetAll st) in
  let result := fst (snd (GetAll st)) in
  history (setAll (fst st1) result ws, snd st1) = history st.
Proof.
  intros Hwf st1 result.
  destruct (GetAll_spec st Hwf) as (_ & _ & _ & Hhist & _ & _ & Hne).
  fold st1 in Hhist, Hne. fold result in Hne.
  rewrite <- Hhist. unfold history; cbn [fst snd].
  apply elems_arrayAt, setAll_frame. congruence.
Qed.

(** [GetAll] only adds an array: the arrays that were there stay as they
    were. *)
Lemma GetAll_frame st a :
  (a < length (fst st))%nat ->
  arrayAt (fst (fst (GetAll st))) a = arrayAt (fst st) a /\
  (length (fst st) <= length (fst (fst (GetAll st))))%nat.
Proof.
  destruct st as [h s]. cbn [fst]. intros Ha.
  unfold GetAll, make, copy; cbn [fst snd s_len s_off s_array].
  rewrite length_alter, length_app. split; [|lia].
  rewrite arrayAt_alter_ne by lia. apply arrayAt_app_l, Ha.
Qed.

Lemma runOps_wf st ops :
  store_wf st ->
  store_wf (runOps growslice st ops) /\
  maxSize (snd (runOps growslice st ops)) = maxSize (snd st).
Proof.
  revert st; induction ops as [|[p|] ops IH]; intros st Hwf; cbn [runOps].
  - split; [exact Hwf|reflexivity].
  - destruct (Add_frame growslice st p Hwf) as (Hwf1 & Hmax1 & _).
    destruct (IH _ Hwf1) as [Hwf2 Hmax2]. split; [exact Hwf2|congruence].
  - destruct (GetAll_spec st Hwf) as (_ & Hwf1 & Hsame & _).
    destruct (IH _ Hwf1) as [Hwf2 Hmax2]. split; [exact Hwf2|].
    rewrite Hmax2, Hsame. reflexivity.
Qed.

(** X3.  For a capacity that is not negative and any interleaving of [Add]
    and [GetAll] calls on a new store, the history is the last [m] of the
    pairs added, in the order they were added: reads change nothing. *)
Theorem interleaved_reads_keep_history (h0 : heap) (m : Z) (ops : list storeOp) :
  0 <= m ->
  history (runOps growslice (NewMemoryStorage h0 m) ops)
    = lastN (Z.to_nat m) (addedBy ops).
Proof.
  intros Hm.
  destruct (NewMemoryStorage_wf h0 m) as (Hwf0 & Hempty & Hmax0).
  assert (Hgen : forall ops st,
            store_wf st -> maxSize (snd st) = m ->
            (length (history st) <= Z.to_nat m)%nat ->
            history (runOps growslice st ops)
              = lastN (Z.to_nat m) (history st ++ addedBy ops)).
  { clear -Hm. intros ops. induction ops as [|[p|] ops IH]; intros st Hwf Hmax Hinv.
    - cbn [runOps addedBy omap]. rewrite app_nil_r, lastN_all by exact Hinv.
      reflexivity.
    - change (addedBy (OpAdd p :: ops)) with (p :: addedBy ops). cbn [runOps].
      destruct (Add_history growslice st p Hwf) as (_ & Hhist); [lia..|].
      destruct (Add_frame growslice st p Hwf) as (Hwf1 & Hmax1 & _).
      rewrite IH; [|exact Hwf1|congruence|].
      + rewrite Hhist, Hmax, lastN_app_lastN, <- app_assoc. reflexivity.
      + rewrite Hhist, Hmax, length_lastN. lia.
    - change (addedBy (OpGetAll :: ops)) with (addedBy ops). cbn [runOps].
      destruct (GetAll_spec st Hwf) as (_ & Hwf1 & Hsame & Hhist & _).
      rewrite IH; [|exact Hwf1|congruence|rewrite Hhist; exact Hinv].
      rewrite Hhist. reflexivity. }
  rewrite (Hgen ops _ Hwf0 Hmax0); rewrite Hempty; [reflexivity|cbn; lia].
Qed.

(** Arrays other than the store's own survive any run of operations. *)
Lemma runOps_frame st ops a :
  store_wf st -> (a < length (fst st))%nat -> a <> s_array (pairs (snd st)) ->
  arrayAt (fst (runOps growslice st ops)) a = arrayAt (fst st) a.
Proof.
  revert st; induction ops as [|[p|] ops IH]; intros st Hwf Ha Hne; cbn [runOps].
  - reflexivity.
  - destruct (Add_frame growslice st p Hwf) as (Hwf1 & _ & Hgrow & Hother & Hwhere).
    rewrite IH.
    + apply Hother; assumption.
    + exact Hwf1.
    + lia.
    + destruct Hwhere as [-> | Hfresh]; [exact Hne | lia].
  - destruct (GetAll_spec st Hwf) as (_ & Hwf1 & Hsame & _).
    destruct (GetAll_frame st a Ha) as [Hkeep Hgrow].
    rewrite IH.
    + exact Hkeep.
    + exact Hwf1.
    + lia.
    + rewrite Hsame. exact Hne.
Qed.

(** X4.  The slice returned by [GetAll] still holds the history of the
    time of the call after any later interleaving of [Add] and [GetAll]
    calls on the store. *)
Theorem copy_survives_later_operations st ops :
  store_wf st ->
  let st1 := fst (GetAll st) in
  let result := fst (snd (GetAll st)) in
  elems (fst (runOps growslice st1 ops)) result = history st.
Proof.
  intros Hwf st1 result.
  destruct (GetAll_spec st Hwf) as (_ & Hwf1 & _ & _ & Hcopy & Hin & Hne).
  fold st1 in Hwf1, Hcopy, Hin, Hne. fold result in Hcopy, Hin, Hne.
  rewrite <- Hcopy. apply elems_arrayAt, runOps_frame; assumption.
Qed.

End StorageExtras.

(** ** White space at the ends of a byte string *)

Lemma find_none_iff {A} (f : A -> bool) (l : list A) :
  find f l = None <-> Forall (fun x => f x = false) l.
Proof.
  induction l as [|x l IH]; cbn [find].
  - split; [constructor|reflexivity].
  - destruct (f x) eqn:Hfx.
    + split; [discriminate|]. intros H. inversion H; congruence.
    + rewrite IH. split; [constructor; assumption|]. intros H. inversion H; assumption.
Qed.

Lemma find_some_elem {A} (f : A -> bool) (l : list A) (x : A) :
  find f l = Some x -> In x l /\ f x = true.
Proof. apply find_some. Qed.

Lemma spaceEncodings_nonempty :
  Forall (fun p : bytes => (1 <= length p)%nat) spaceEncodings.
Proof. vm_compute. repeat constructor. Qed.

Lemma hasPrefix_length (p s : bytes) :
  hasPrefix p s = true -> (length p <= length s)%nat.
Proof.
  revert s; induction p as [|a p IH]; intros [|b s]; cbn; intros H; try lia;
    try discriminate.
  apply andb_true_iff in H as [_ H]. apply IH in H. lia.
Qed.

Lemma hasPrefix_take (p s : bytes) (k : nat) :
  hasPrefix p (take k s) = true -> hasPrefix p s = true.
Proof.
  revert s k; induction p as [|a p IH]; intros [|b s] [|k]; cbn; try discriminate;
    try reflexivity.
  intros H. apply andb_true_iff in H as [Hab H].
  rewrite Hab. cbn. eapply IH, H.
Qed.

Lemma leadingSpace_width s w :
  leadingSpace s = Some w -> (1 <= w <= length s)%nat.
Proof.
  unfold leadingSpace.
  destruct (find (fun p => hasPrefix p s) spaceEncodings) as [p|] eqn:Hfind;
    [|discriminate].
  intros [= <-]. apply find_some in Hfind as [Hin Hpre].
  split.
  - pose proof spaceEncodings_nonempty as Hall.
    rewrite List.Forall_forall in Hall. apply Hall, Hin.
  - apply hasPrefix_length, Hpre.
Qed.

Lemma trailingSpace_width s w :
  trailingSpace s = Some w -> (1 <= w <= length s)%nat.
Proof.
  unfold trailingSpace.
  destruct (find (fun p => hasPrefix (rev p) (rev s)) spaceEncodings)
    as [p|] eqn:Hfind; [|discriminate].
  intros [= <-]. apply find_some in Hfind as [Hin Hpre].
  split.
  - pose proof spaceEncodings_nonempty as Hall.
    rewrite List.Forall_forall in Hall. apply Hall, Hin.
  - apply hasPrefix_length in Hpre. rewrite !length_rev in Hpre. exact Hpre.
Qed.

Lemma leadingSpace_take s k :
  leadingSpace s = None -> leadingSpace (take k s) = None.
Proof.
  unfold leadingSpace. intros H.
  destruct (find (fun p => hasPrefix p s) spaceEncodings) as [p|] eqn:Hs;
    [discriminate|].
  apply find_none_iff in Hs.
  assert (Hnone : find (fun p => hasPrefix p (take k s)) spaceEncodings = None).
  { apply find_none_iff. eapply Forall_impl; [exact Hs|].
    intros p Hp. cbn in Hp |- *. destruct (hasPrefix p (take k s)) eqn:Hk; [|reflexivity].
    apply hasPrefix_take in Hk. congruence. }
  rewrite Hnone. reflexivity.
Qed.

Lemma trimLeft_spec fuel s :
  (length s <= fuel)%nat ->
  leadingSpace (trimLeft fuel s) = None /\
  (length (trimLeft fuel s) <= length s)%nat.
Proof.
  revert s; induction fuel as [|fuel IH]; intros s Hfuel.
  - destruct s; [|cbn in Hfuel; lia]. cbn [trimLeft]. split; [reflexivity|lia].
  - cbn [trimLeft]. destruct (leadingSpace s) as [w|] eqn:Hlead.
    + apply leadingSpace_width in Hlead.
      destruct (IH (drop w s)) as [Hnone Hlen]; [rewrite length_drop; lia|].
      split; [exact Hnone|]. rewrite length_drop in Hlen. lia.
    + split; [exact Hlead|lia].
Qed.

Lemma trimRight_spec fuel s :
  (length s <= fuel)%nat -> leadingSpace s = None ->
  leadingSpace (trimRight fuel s) = None /\
  trailingSpace (trimRight fuel s) = None /\
  (length (trimRight fuel s) <= length s)%nat.
Proof.
  revert s; induction fuel as [|fuel IH]; intros s Hfuel Hlead.
  - destruct s; [|cbn in Hfuel; lia]. cbn [trimRight].
    split; [reflexivity|]. split; [reflexivity|lia].
  - cbn [trimRight]. destruct (trailingSpace s) as [w|] eqn:Htrail.
    + apply trailingSpace_width in Htrail.
      destruct (IH (take (length s - w) s)) as (H1 & H2 & H3).
      * rewrite length_take. lia.
      * apply leadingSpace_take, Hlead.
      * split; [exact H1|]. split; [exact H2|]. rewrite length_take in H3. lia.
    + split; [exact Hlead|]. split; [exact Htrail|lia].
Qed.

Lemma length_string_of_list_ascii (l : list ascii) :
  String.length (string_of_list_ascii l) = length l.
Proof. induction l as [|a l IH]; cbn; [reflexivity|]. rewrite IH. reflexivity. Qed.

Lemma length_list_ascii_of_string (s : string) :
  length (list_ascii_of_string s) = String.length s.
Proof. induction s as [|a s IH]; cbn; [reflexivity|]. rewrite IH. reflexivity. Qed.

Lemma In_drop {A} (n : nat) (l : list A) (x : A) : In x (drop n l) -> In x l.
Proof.
  revert l; induction n as [|n IH]; intros [|y l]; cbn; try tauto.
  intros H. right. apply IH, H.
Qed.

Lemma In_take {A} (n : nat) (l : list A) (x : A) : In x (take n l) -> In x l.
Proof.
  revert l; induction n as [|n IH]; intros [|y l]; cbn; try tauto.
  intros [H|H]; [left; exact H|right; apply IH, H].
Qed.

Lemma trimLeft_incl fuel s c : In c (trimLeft fuel s) -> In c s.
Proof.
  revert s; induction fuel as [|fuel IH]; intros s; cbn [trimLeft]; [tauto|].
  destruct (leadingSpace s) as [w|]; [|tauto].
  intros H. apply IH in H. eapply In_drop, H.
Qed.

Lemma trimRight_incl fuel s c : In c (trimRight fuel s) -> In c s.
Proof.
  revert s; induction fuel as [|fuel IH]; intros s; cbn [trimRight]; [tauto|].
  destruct (trailingSpace s) as [w|]; [|tauto].
  intros H. apply IH in H. eapply In_take, H.
Qed.

Lemma TrimSpace_incl s c :
  In c (list_ascii_of_string (TrimSpace s)) -> In c (list_ascii_of_string s).
Proof.
  unfold TrimSpace. cbv zeta. rewrite list_ascii_of_string_of_list_ascii.
  intros H. eapply trimLeft_incl, trimRight_incl, H.
Qed.

Lemma filter_all_id {A} (P : A -> Prop) `{forall x, Decision (P x)} (l : list A) :
  List.Forall P l -> filter P l = l.
Proof.
  induction 1 as [|x l Hx _ IH]; [reflexivity|].
  rewrite filter_cons_True by exact Hx. rewrite IH. reflexivity.
Qed.

(** [TrimSpace] gives a string that neither starts nor ends with a
    white-space rune and is no longer than its argument. *)
Lemma TrimSpace_spec s :
  leadingSpace (list_ascii_of_string (TrimSpace s)) = None /\
  trailingSpace (list_ascii_of_string (TrimSpace s)) = None /\
  (String.length (TrimSpace s) <= String.length s)%nat.
Proof.
  unfold TrimSpace. cbv zeta.
  set (b := list_ascii_of_string s).
  destruct (trimLeft_spec (length b) b) as [Hl Hlen]; [lia|].
  destruct (trimRight_spec (length (trimLeft (length b) b)) (trimLeft (length b) b))
    as (H1 & H2 & H3); [lia|exact Hl|].
  rewrite list_ascii_of_string_of_list_ascii, length_string_of_list_ascii.
  split; [exact H1|]. split; [exact H2|].
  subst b. rewrite length_list_ascii_of_string in *. lia.
Qed.

(** X5.  The result of [sanitizeInput] holds no NUL byte and is no longer
    than the input; for an input without NUL bytes it is the trimmed
    input. *)
Theorem sanitizeInput_strips_NUL_and_shrinks (input : string) :
  ~ In (byte 0) (list_ascii_of_string (sanitizeInput input)) /\
  (String.length (sanitizeInput input) <= String.length input)%nat /\
  (~ In (byte 0) (list_ascii_of_string input) ->
   sanitizeInput input = TrimSpace input).
Proof.
  unfold sanitizeInput, removeNUL. cbv zeta.
  rewrite list_ascii_of_string_of_list_ascii, length_string_of_list_ascii.
  split; [|split].
  - rewrite <- list_elem_of_In, list_elem_of_filter. intros [Hne _]. congruence.
  - pose proof (TrimSpace_spec input) as (_ & _ & Hlen).
    pose proof (length_filter (fun c => c ≠ byte 0)
                  (list_ascii_of_string (TrimSpace input))) as Hf.
    rewrite length_list_ascii_of_string in Hf. lia.
  - intros Hclean. rewrite filter_all_id.
    + apply string_of_list_ascii_of_string.
    + apply List.Forall_forall. intros c Hc Heq. subst c.
      apply Hclean, TrimSpace_incl, Hc.
Qed.

Section OllamaExtras.

Variable E : Env.

Lemma fallbackAnswer_trimmed :
  fallbackAnswer <> "" /\
  leadingSpace (list_ascii_of_string fallbackAnswer) = None /\
  trailingSpace (list_ascii_of_string fallbackAnswer) = None.
Proof. vm_compute. repeat split. discriminate. Qed.

Lemma answer_is_nonempty c q sent0 :
  snd (snd (GenerateAnswer E c q sent0)) = None ->
  fst (snd (GenerateAnswer E c q sent0)) <> "".
Proof.
  unfold GenerateAnswer.
  destruct (1000 <? String.length q)%nat; [discriminate|].
  destruct (json_Marshal E _) as [jsonData|err]; [|discriminate].
  destruct (http_NewRequest E _ _ _) as [req0|err]; [|discriminate].
  destruct (client_Do E _) as [resp|err]; [|intros _; discriminate].
  destruct (negb _); [intros _; discriminate|].
  destruct (scanLoop E (Body resp) None "") as [answer serr].
  destruct (scanFailed _); [intros _; discriminate|].
  destruct (String.eqb_spec (TrimSpace answer) "") as [Hempty|Hne];
    [intros _; discriminate|].
  intros _. exact Hne.
Qed.

(** X6.  When [GenerateAnswer] returns a [nil] error, the answer is not
    empty and neither starts nor ends with a white-space rune. *)
Theorem answer_is_nonempty_and_trimmed c q sent0 :
  snd (snd (GenerateAnswer E c q sent0)) = None ->
  let answer := fst (snd (GenerateAnswer E c q sent0)) in
  answer <> "" /\
  leadingSpace (list_ascii_of_string answer) = None /\
  trailingSpace (list_ascii_of_string answer) = None.
Proof.
  unfold GenerateAnswer.
  destruct (1000 <? String.length q)%nat; [discriminate|].
  destruct (json_Marshal E _) as [jsonData|err]; [|discriminate].
  destruct (http_NewRequest E _ _ _) as [req0|err]; [|discriminate].
  destruct (client_Do E _) as [resp|err];
    [|intros _; exact fallbackAnswer_trimmed].
  destruct (negb _); [intros _; exact fallbackAnswer_trimmed|].
  destruct (scanLoop E (Body resp) None "") as [answer serr].
  destruct (scanFailed _); [intros _; exact fallbackAnswer_trimmed|].
  destruct (String.eqb_spec (TrimSpace answer) "") as [Hempty|Hne];
    [intros _; exact fallbackAnswer_trimmed|].
  intros _. cbn [fst snd].
  pose proof (TrimSpace_spec answer) as (Hl & Ht & _).
  split; [exact Hne|]. split; assumption.
Qed.

(** X7.  When [GenerateAnswer] returns an error, the answer is the empty
    string, no request has gone to the endpoint, and the error is one of
    three: [question too long] for more than 1000 bytes, or the wrapped
    failure of marshalling, or the wrapped failure of building the
    request. *)
Theorem error_means_nothing_sent c q sent0 e :
  snd (snd (GenerateAnswer E c q sent0)) = Some e ->
  fst (snd (GenerateAnswer E c q sent0)) = "" /\
  fst (GenerateAnswer E c q sent0) = sent0 /\
  ((1000 < String.length q)%nat /\ e = errorString "question too long" \/
   (String.length q <= 1000)%nat /\
   ((exists err, json_Marshal E (payloadFor c q) = inr err /\
                 e = wrapError "failed to marshal request" err) \/
    (exists jsonData err,
        json_Marshal E (payloadFor c q) = inl jsonData /\
        http_NewRequest E "POST" (url c) jsonData = inr err /\
        e = wrapError "failed to create request" err))).
Proof.
  unfold GenerateAnswer. fold (payloadFor c q).
  destruct (Nat.ltb_spec 1000 (String.length q)) as [Hlong|Hlen].
  { intros [= <-]. cbn [fst snd]. repeat split. left. split; [exact Hlong|reflexivity]. }
  destruct (json_Marshal E (payloadFor c q)) as [jsonData|err] eqn:Hm.
  2:{ intros [= <-]. cbn [fst snd]. repeat split. right. split; [exact Hlen|].
      left. exists err. split; reflexivity. }
  destruct (http_NewRequest E "POST" (url c) jsonData) as [req0|err] eqn:Hreq.
  2:{ intros [= <-]. cbn [fst snd]. repeat split. right. split; [exact Hlen|].
      right. exists jsonData, err. repeat split; assumption. }
  destruct (client_Do E _) as [resp|err]; [|discriminate].
  destruct (negb _); [discriminate|].
  destruct (scanLoop E (Body resp) None "") as [answer serr].
  destruct (scanFailed _); [discriminate|].
  destruct (String.eqb _ _); discriminate.
Qed.

(** X8.  When [GenerateAnswer] returns a [nil] error it has sent exactly one
    request: the one built for [POST] to the client's URL from the
    marshalled payload - the client's model, streaming on, the token cap,
    and the prompt template followed by the sanitized question - with the
    content type set to [application/json]. *)
Theorem one_request_with_the_sanitized_prompt c q sent0 :
  snd (snd (GenerateAnswer E c q sent0)) = None ->
  exists jsonData req0,
    json_Marshal E (payloadFor c q) = inl jsonData /\
    http_NewRequest E "POST" (url c) jsonData = inl req0 /\
    fst (GenerateAnswer E c q sent0) =
      sent0 ++ [mkHTTPRequest (out_method req0) (out_url req0) (out_body req0)
                  (Header_Set (out_header req0) "Content-Type" "application/json")].
Proof.
  unfold GenerateAnswer. fold (payloadFor c q).
  destruct (1000 <? String.length q)%nat; [discriminate|].
  destruct (json_Marshal E (payloadFor c q)) as [jsonData|err]; [|discriminate].
  destruct (http_NewRequest E "POST" (url c) jsonData) as [req0|err] eqn:Hreq;
    [|discriminate].
  intros _. exists jsonData, req0. split; [reflexivity|]. split; [exact Hreq|].
  destruct (client_Do E _) as [resp|err]; [|reflexivity].
  destruct (negb _); [reflexivity|].
  destruct (scanLoop E (Body resp) None "") as [answer serr].
  destruct (scanFailed _); [reflexivity|].
  destruct (String.eqb _ _); reflexivity.
Qed.

(** X9.  What follows the first line that parses with its completion flag
    set - more lines, or a failing read - has no influence on the text the
    loop gathers nor on the error it leaves in the scanner. *)
Theorem nothing_after_done_is_read evs1 line frag evs2 err acc :
  line <> "" -> json_Unmarshal E line = Some frag -> Done frag = true ->
  scanLoop E (evs1 ++ Token line :: evs2) err acc
    = scanLoop E (evs1 ++ [Token line]) err acc.
Proof.
  intros Hne Hparse Hdone.
  assert (Hlen : (String.length line =? 0)%nat = false).
  { destruct line; [congruence|reflexivity]. }
  revert err acc. induction evs1 as [|[l|e] evs1 IH]; intros err acc.
  - cbn [app scanLoop]. rewrite Hlen, Hparse, Hdone. reflexivity.
  - cbn [app scanLoop]. destruct (String.length l =? 0)%nat; [apply IH|].
    destruct (json_Unmarshal E l) as [f|]; [|apply IH].
    destruct (Done f); [reflexivity|apply IH].
  - cbn [app scanLoop]. apply IH.
Qed.

End OllamaExtras.

(** ** More on the request handlers *)

Lemma list_ascii_of_string_app (a b : string) :
  list_ascii_of_string (a +:+ b) = list_ascii_of_string a ++ list_ascii_of_string b.
Proof.
  induction a as [|x a IH]; [reflexivity|].
  rewrite string_app_cons. cbn. rewrite IH. reflexivity.
Qed.

Lemma hasPrefix_app (p s : bytes) : hasPrefix p (p ++ s) = true.
Proof.
  induction p as [|a p IH]; [reflexivity|]. cbn. rewrite IH, Ascii.eqb_refl.
  reflexivity.
Qed.

Lemma containsBytes_prefix (s sub : bytes) :
  hasPrefix sub s = true -> containsBytes s sub = true.
Proof. intros H. destruct s; cbn [containsBytes]; rewrite H; reflexivity. Qed.

Lemma containsBytes_app (a sub b : bytes) :
  containsBytes (a ++ sub ++ b) sub = true.
Proof.
  induction a as [|x a IH].
  - change ([] ++ sub ++ b) with (sub ++ b).
    apply containsBytes_prefix, hasPrefix_app.
  - cbn [app containsBytes]. rewrite IH. apply orb_true_r.
Qed.

Lemma lastN_snoc {A} (m : nat) (l : list A) (x : A) :
  (1 <= m)%nat -> lastN m (l ++ [x]) = lastN (m - 1) l ++ [x].
Proof.
  intros Hm. unfold lastN. rewrite length_app. cbn [length].
  rewrite drop_app_le by lia. do 2 f_equal. lia.
Qed.

Section HandlerExtras.

Variable E : Env.
Variable growslice : nat -> nat -> nat.
Variable ollama : OllamaClient.

(** X10.  A request without a [Content-Type] header is answered 400 with
    [Content-Type must be application/json]; a request whose content type
    contains [application/json] anywhere but whose body does not decode is
    answered 400 with [Invalid request format]; the state is unchanged in
    both cases. *)
Theorem bad_content_type_or_body_is_rejected r st :
  (Header r !! "Content-Type" = None \/ Header r !! "Content-Type" = Some [] ->
   askHandler E growslice ollama r st =
     (st, respondWithError "Content-Type must be application/json"
                           StatusBadRequest)) /\
  (forall a b,
     Header_Get (Header r) "Content-Type" = a +:+ "application/json" +:+ b ->
     json_Decode E (ReqBody r) = None ->
     askHandler E growslice ollama r st =
       (st, respondWithError "Invalid request format" StatusBadRequest)).
Proof.
  split.
  - intros Hmissing. unfold askHandler.
    assert (Hget : Header_Get (Header r) "Content-Type" = "").
    { unfold Header_Get. destruct Hmissing as [-> | ->]; reflexivity. }
    rewrite Hget. reflexivity.
  - intros a b Hct Hdec. unfold askHandler. rewrite Hct, Hdec.
    unfold Contains. rewrite !list_ascii_of_string_app, containsBytes_app.
    reflexivity.
Qed.

(** The handler once the question has passed validation and an answer has
    come back. *)
Lemma askHandler_answered r st req sent' answer :
  Contains (Header_Get (Header r) "Content-Type") "application/json" = true ->
  json_Decode E (ReqBody r) = Some req ->
  (String.length (AskRequest_Question req) <= 1000)%nat ->
  TrimSpace (AskRequest_Question req) <> "" ->
  GenerateAnswer E ollama (AskRequest_Question req) (sent st)
    = (sent', (answer, None)) ->
  store_wf (storage st) -> 0 <= maxSize (snd (storage st)) ->
  askHandler E growslice ollama r st =
    (mkAppState
       (fst (Add growslice (storage st) (mkQAPair (AskRequest_Question req) answer)))
       sent' (logged st),
     respondWithJSON (AskResponse answer) StatusOK).
Proof.
  intros Hct Hdec Hlen Hne Hgen Hwf Hmax.
  rewrite (askHandler_decoded E growslice ollama r st req Hct Hdec). cbv zeta.
  apply Nat.ltb_ge in Hlen. rewrite Hlen.
  apply String.eqb_neq in Hne. rewrite Hne, Hgen.
  destruct (Add_history growslice (storage st)
              (mkQAPair (AskRequest_Question req) answer) Hwf Hmax) as [Hret _].
  destruct (Add growslice (storage st) _) as [storage' added].
  cbn [fst snd] in *. subst added. reflexivity.
Qed.


(** What [GenerateAnswer] returns when the call it made failed upstream. *)
Lemma GenerateAnswer_upstream_failure q sent0 req :
  fst (GenerateAnswer E ollama q sent0) = sent0 ++ [req] ->
  upstreamFailure E req ->
  GenerateAnswer E ollama q sent0 = (sent0 ++ [req], (fallbackAnswer, None)).
Proof.
  intros Hsent Hfail.
  pose proof (GenerateAnswer_sent E ollama q sent0 req Hsent) as Hres.
  destruct (GenerateAnswer E ollama q sent0) as [s res]. cbn [fst snd] in *.
  subst s. f_equal. rewrite Hres. unfold upstreamFailure in Hfail.
  destruct (client_Do E req) as [resp|err]; [|reflexivity].
  destruct (Z.eqb_spec (StatusCode resp) StatusOK) as [Hok|Hbad]; cbn [negb];
    [|reflexivity].
  destruct Hfail as [Hst | [Hscan | Hempty]].
  - contradiction.
  - rewrite Hscan. reflexivity.
  - destruct (scanFailed _); [reflexivity|]. rewrite Hempty. reflexivity.
Qed.

(** X12.  When the call to the endpoint fails upstream, [askHandler]
    responds 200 with the fallback sentence, and the fallback is recorded
    in the history as the answer to the question. *)
Theorem upstream_failure_is_answered_and_recorded r st req out :
  Contains (Header_Get (Header r) "Content-Type") "application/json" = true ->
  json_Decode E (ReqBody r) = Some req ->
  (String.length (AskRequest_Question req) <= 1000)%nat ->
  TrimSpace (AskRequest_Question req) <> "" ->
  fst (GenerateAnswer E ollama (AskRequest_Question req) (sent st))
    = sent st ++ [out] ->
  upstreamFailure E out ->
  store_wf (storage st) -> 0 <= maxSize (snd (storage st)) ->
  snd (askHandler E growslice ollama r st)
    = respondWithJSON (AskResponse fallbackAnswer) StatusOK /\
  history (storage (fst (askHandler E growslice ollama r st)))
    = lastN (Z.to_nat (maxSize (snd (storage st))))
            (history (storage st)
               ++ [mkQAPair (AskRequest_Question req) fallbackAnswer]).
Proof.
  intros Hct Hdec Hlen Hne Hsent Hfail Hwf Hmax.
  pose proof (GenerateAnswer_upstream_failure _ _ _ Hsent Hfail) as Hgen.
  rewrite (askHandler_answered r st req _ _ Hct Hdec Hlen Hne Hgen Hwf Hmax).
  cbn [fst snd storage]. split; [reflexivity|].
  apply (Add_history growslice (storage st)); assumption.
Qed.

Lemma GenerateAnswer_sends_at_most_one q sent0 :
  exists extra, fst (GenerateAnswer E ollama q sent0) = sent0 ++ extra /\
                (length extra <= 1)%nat.
Proof.
  unfold GenerateAnswer.
  destruct (1000 <? String.length q)%nat;
    [exists []; rewrite app_nil_r; split; [reflexivity|cbn; lia]|].
  destruct (json_Marshal E _) as [jsonData|err];
    [|exists []; rewrite app_nil_r; split; [reflexivity|cbn; lia]].
  destruct (http_NewRequest E _ _ _) as [req0|err];
    [|exists []; rewrite app_nil_r; split; [reflexivity|cbn; lia]].
  eexists [_]. split; [|cbn; lia].
  destruct (client_Do E _) as [resp|err]; [|reflexivity].
  destruct (negb _); [reflexivity|].
  destruct (scanLoop E (Body resp) None "") as [answer serr].
  destruct (scanFailed _); [reflexivity|].
  destruct (String.eqb _ _); reflexivity.
Qed.

(** X13.  [askHandler] sends at most one request to the endpoint; when it
    returns, the status is 200, 400 or 500; the store changes only with a
    200; and a 200 carries an answer that is not empty. *)
Theorem askHandler_outcomes r st :
  let st' := fst (askHandler E growslice ollama r st) in
  (exists extra, sent st' = sent st ++ extra /\ (length extra <= 1)%nat) /\
  (forall w, snd (askHandler E growslice ollama r st) = Returns w ->
     (w_status w = StatusOK \/ w_status w = StatusBadRequest \/
      w_status w = StatusInternalServerError) /\
     (w_status w <> StatusOK -> storage st' = storage st) /\
     (w_status w = StatusOK -> exists answer,
        w_payload w = AskResponse answer /\ answer <> "")).
Proof.
  assert (Hnone : exists extra : list HTTPRequest,
            sent st = sent st ++ extra /\ (length extra <= 1)%nat)
    by (exists []; rewrite app_nil_r; split; [reflexivity|cbn; lia]).
  unfold askHandler.
  destruct (negb (Contains _ _)).
  { cbn [fst snd]. split; [exact Hnone|]. intros w [= <-]. cbn.
    split; [auto|]. split; [reflexivity|discriminate]. }
  destruct (json_Decode E (ReqBody r)) as [req|].
  2:{ cbn [fst snd]. split; [exact Hnone|]. intros w [= <-]. cbn.
      split; [auto|]. split; [reflexivity|discriminate]. }
  destruct (_ <? _)%nat.
  { cbn [fst snd]. split; [exact Hnone|]. intros w [= <-]. cbn.
    split; [auto|]. split; [reflexivity|discriminate]. }
  destruct (String.eqb _ _).
  { cbn [fst snd]. split; [exact Hnone|]. intros w [= <-]. cbn.
    split; [auto|]. split; [reflexivity|discriminate]. }
  pose proof (GenerateAnswer_sends_at_most_one (AskRequest_Question req) (sent st))
    as Hone.
  pose proof (answer_is_nonempty E ollama (AskRequest_Question req) (sent st))
    as Hnonempty.
  destruct (GenerateAnswer E ollama (AskRequest_Question req) (sent st))
    as [sent' [answer [e|]]]; cbn [fst snd] in Hone, Hnonempty.
  { cbn [fst snd sent]. split; [exact Hone|]. intros w [= <-]. cbn.
    split; [auto|]. split; [reflexivity|discriminate]. }
  destruct (Add growslice (storage st) _) as [storage' [[e|]|msg]];
    cbn [fst snd sent]; (split; [exact Hone|]); intros w Hw; try discriminate;
    injection Hw as <-; cbn; (split; [auto|]); (split; [congruence|]);
    intros _; exists answer; (split; [reflexivity|]); apply Hnonempty; reflexivity.
Qed.


(** X15.  After a valid question was answered, with a capacity of at least
    one, [historyHandler] lists the pair of that question and answer as
    the last entry. *)
Theorem answered_question_is_latest_in_history r r' st req sent' answer :
  Contains (Header_Get (Header r) "Content-Type") "application/json" = true ->
  json_Decode E (ReqBody r) = Some req ->
  (String.length (AskRequest_Question req) <= 1000)%nat ->
  TrimSpace (AskRequest_Question req) <> "" ->
  GenerateAnswer E ollama (AskRequest_Question req) (sent st)
    = (sent', (answer, None)) ->
  store_wf (storage st) -> 1 <= maxSize (snd (storage st)) ->
  exists earlier,
    snd (historyHandler r' (fst (askHandler E growslice ollama r st)))
      = respondWithJSON
          (HistoryResponse (earlier ++ [mkQAPair (AskRequest_Question req) answer]))
          StatusOK.
Proof.
  intros Hct Hdec Hlen Hne Hgen Hwf Hmax.
  rewrite (askHandler_answered r st req sent' answer) by (assumption || lia).
  cbn [fst].
  destruct (Add_history growslice (storage st)
              (mkQAPair (AskRequest_Question req) answer) Hwf) as [_ Hhist]; [lia|].
  destruct (Add_frame growslice (storage st)
              (mkQAPair (AskRequest_Question req) answer) Hwf) as (Hwf' & _).
  eexists. unfold historyHandler. cbn [storage sent logged].
  destruct (GetAll_spec _ Hwf') as (Herr & _ & _ & _ & Hcopy & _).
  destruct (GetAll (fst (Add growslice (storage st) _))) as [storage' [result err]].
  cbn [fst snd] in *. subst err. rewrite Hcopy, Hhist.
  rewrite lastN_snoc by lia. reflexivity.
Qed.

End HandlerExtras.

(** ** More on admission control *)

Lemma admitAll_cons rl ip now calls :
  admitAll rl ((ip, now) :: calls) =
    (fst (admitAll (fst (getLimiter_Allow rl ip now)) calls),
     snd (getLimiter_Allow rl ip now)
       :: snd (admitAll (fst (getLimiter_Allow rl ip now)) calls)).
Proof.
  cbn [admitAll]. destruct (getLimiter_Allow rl ip now) as [rl1 ok]. cbn [fst snd].
  destruct (admitAll rl1 calls). reflexivity.
Qed.

(** A call decides by the limiter of its identity and the rate alone, and
    leaves those of every other identity as they were. *)
Lemma getLimiter_Allow_agree ip now rl rl' :
  agreeOn ip rl rl' ->
  snd (getLimiter_Allow rl ip now) = snd (getLimiter_Allow rl' ip now) /\
  agreeOn ip (fst (getLimiter_Allow rl ip now)) (fst (getLimiter_Allow rl' ip now)).
Proof.
  intros [Hl Hr]. unfold getLimiter_Allow, getLimiter. rewrite <- Hl, <- Hr.
  destruct (limiters rl !! ip) as [l|];
    destruct (Allow _ now) as [ok l']; cbn [fst snd];
    (split; [reflexivity|]); split; cbn [limiters rl_rate];
    rewrite ?lookup_insert_eq; congruence.
Qed.

Lemma getLimiter_Allow_other ip other now rl :
  ip <> other ->
  agreeOn ip (fst (getLimiter_Allow rl other now)) rl.
Proof.
  intros Hne. unfold getLimiter_Allow, getLimiter.
  destruct (limiters rl !! other) as [l|];
    destruct (Allow _ now) as [ok l']; cbn [fst]; split; cbn [limiters rl_rate];
    rewrite ?lookup_insert_ne by congruence; reflexivity.
Qed.

Lemma agreeOn_trans ip a b c : agreeOn ip a b -> agreeOn ip b c -> agreeOn ip a c.
Proof. intros [? ?] [? ?]. split; congruence. Qed.

(** X16.  The decisions an identity gets within any sequence of calls by
    any identities at any times are the decisions it would get if the
    calls of all other identities were left out. *)
Theorem identities_have_independent_budgets rl ip calls :
  decisionsFor ip calls (snd (admitAll rl calls))
    = snd (admitAll rl (filter (fun c => c.1 = ip) calls)).
Proof.
  assert (Hgen : forall calls rl rl', agreeOn ip rl rl' ->
            decisionsFor ip calls (snd (admitAll rl calls))
              = snd (admitAll rl' (filter (fun c => c.1 = ip) calls))).
  { clear. intros calls. induction calls as [|[ip' now] calls IH]; intros rl rl' Hag.
    - reflexivity.
    - rewrite admitAll_cons. cbn [snd decisionsFor].
      destruct (decide (ip' = ip)) as [->|Hne].
      + rewrite filter_cons_True by reflexivity. rewrite admitAll_cons. cbn [snd].
        destruct (getLimiter_Allow_agree ip now rl rl' Hag) as [Hok Hag'].
        rewrite Hok. f_equal. apply IH, Hag'.
      + rewrite filter_cons_False by (cbn; congruence).
        apply IH. eapply agreeOn_trans; [|exact Hag].
        apply getLimiter_Allow_other. congruence. }
  apply Hgen. split; reflexivity.
Qed.

(** X17.  Once the clean-up of an identity has run, its next [n] calls at
    one instant are admitted up to [2 * rate] again, however spent its
    bucket was; the limiters of the other identities stay. *)
Theorem cleanup_restores_full_burst rl ip now n :
  0 <= rl_rate rl < 2 ^ 62 ->
  snd (burstOf (cleanup rl ip) ip now n)
    = replicate (Nat.min n (Z.to_nat (2 * rl_rate rl))) true
        ++ replicate (n - Z.to_nat (2 * rl_rate rl)) false /\
  (forall other, other <> ip ->
     limiters (cleanup rl ip) !! other = limiters rl !! other).
Proof.
  intros Hrate. split.
  - assert (Hnone : limiters (cleanup rl ip) !! ip = None)
      by (cbn [cleanup limiters]; apply lookup_delete_eq).
    change (rl_rate rl) with (rl_rate (cleanup rl ip)) in *.
    destruct (getLimiter_fresh (cleanup rl ip) ip now Hrate Hnone)
      as (_ & Hfull & Hsame).
    destruct n as [|n]; [reflexivity|].
    replace (burstOf (cleanup rl ip) ip now (S n))
      with (burstOf (fst (getLimiter (cleanup rl ip) ip now)) ip now (S n))
      by (rewrite !burstOf_S, Hsame; reflexivity).
    apply (burstOf_bucket ip (rl_rate (cleanup rl ip)) now (S n)
             (2 * rl_rate (cleanup rl ip)) _); [lia|lia|exact Hfull].
  - intros other Hne. cbn [cleanup limiters]. apply lookup_delete_ne. congruence.
Qed.

Lemma getLimiter_Allow_known rl ip now :
  is_Some (limiters (fst (getLimiter_Allow rl ip now)) !! ip) /\
  sleeping (fst (getLimiter_Allow rl ip now))
    = sleeping rl ++
      match limiters rl !! ip with
      | None => [(now + fiveMinutes, ip)]
      | Some _ => []
      end.
Proof.
  unfold getLimiter_Allow, getLimiter.
  destruct (limiters rl !! ip) as [l|];
    destruct (Allow _ now) as [ok l']; cbn [fst limiters sleeping];
    rewrite lookup_insert_eq; (split; [eauto|]); rewrite ?app_nil_r; reflexivity.
Qed.

(** X18.  A burst of calls of one identity schedules one clean-up, five
    minutes after the first call, when the identity was unknown, and none
    when it was known: later calls never postpone or repeat it. *)
Theorem cleanup_is_scheduled_once rl ip now n :
  sleeping (fst (burstOf rl ip now (S n)))
    = sleeping rl ++
      match limiters rl !! ip with
      | None => [(now + fiveMinutes, ip)]
      | Some _ => []
      end.
Proof.
  rewrite burstOf_S. cbn [fst].
  destruct (getLimiter_Allow_known rl ip now) as [Hknown Hsleep].
  rewrite <- Hsleep. clear Hsleep.
  generalize dependent (fst (getLimiter_Allow rl ip now)). clear rl.
  induction n as [|n IH]; intros rl Hknown; [reflexivity|].
  rewrite burstOf_S. cbn [fst].
  destruct (getLimiter_Allow_known rl ip now) as [Hknown' Hsleep].
  rewrite IH by exact Hknown'. rewrite Hsleep.
  destruct Hknown as [l ->]. apply app_nil_r.
Qed.

(** X19.  With a configured rate of zero or less, every call of every
    identity at every time is refused. *)
Theorem nonpositive_rate_refuses_everything rate calls :
  - 2 ^ 62 <= rate <= 0 ->
  snd (admitAll (newRateLimiter rate) calls) = replicate (length calls) false.
Proof.
  intros Hrate.
  assert (Hgen : forall calls rl,
            rl_rate rl = rate ->
            (forall ip l, limiters rl !! ip = Some l -> lim_burst l <= 0) ->
            snd (admitAll rl calls) = replicate (length calls) false).
  { clear -Hrate. intros calls.
    induction calls as [|[ip now] calls IH]; intros rl Hr Hinv; [reflexivity|].
    rewrite admitAll_cons. cbn [snd length replicate].
    assert (Hstep : snd (getLimiter_Allow rl ip now) = false /\
                    rl_rate (fst (getLimiter_Allow rl ip now)) = rate /\
                    forall ip' l, limiters (fst (getLimiter_Allow rl ip now)) !! ip' = Some l ->
                                  lim_burst l <= 0).
    { unfold getLimiter_Allow, getLimiter.
      assert (Hrefuse : forall l, lim_burst l <= 0 -> Allow l now = (false, l)).
      { intros l Hb. unfold Allow, available.
        destruct (Z.leb_spec nano (Z.min (lim_burst l * nano)
                    (lim_tokens l + Z.max 0 (now - lim_last l) * Z.max 0 (lim_limit l))))
          as [Hok|_]; [|reflexivity].
        unfold nano in Hok. lia. }
      destruct (limiters rl !! ip) as [l|] eqn:Hl.
      - rewrite (Hrefuse l) by (eapply Hinv; exact Hl). cbn [fst snd limiters rl_rate].
        split; [reflexivity|]. split; [exact Hr|].
        intros ip' l0. destruct (decide (ip = ip')) as [<-|Hne].
        + rewrite lookup_insert_eq. intros [= <-]. eapply Hinv; exact Hl.
        + rewrite lookup_insert_ne by exact Hne. apply Hinv.
      - assert (Hb : lim_burst (NewLimiter (rl_rate rl) (wrap64 (rl_rate rl * 2))) <= 0).
        { cbn [NewLimiter lim_burst]. rewrite wrap64_small by lia. lia. }
        rewrite (Hrefuse _ Hb). cbn [fst snd limiters rl_rate].
        split; [reflexivity|]. split; [exact Hr|].
        intros ip' l0. destruct (decide (ip = ip')) as [<-|Hne].
        + rewrite lookup_insert_eq. intros [= <-]. exact Hb.
        + rewrite !lookup_insert_ne by exact Hne. apply Hinv. }
    destruct Hstep as (-> & Hr' & Hinv'). f_equal. apply IH; assumption. }
  apply Hgen; [reflexivity|]. intros ip l. cbn [newRateLimiter limiters].
  rewrite lookup_empty. discriminate.
Qed.

(** ** The middleware chain *)

(** X20.  A request refused by the rate limiter is answered 429 with the
    JSON error and with the content type as its only header: the security
    headers are set by a middleware that runs after the rate limiter, so a
    429 carries none of them; the handler's state is untouched. *)
Theorem refused_request_has_no_security_headers elapsed now h r srv :
  snd (getLimiter_Allow (srv_limiter srv) (clientIP r) now) = false ->
  exists w',
    snd (routed elapsed now h freshWriter r srv) = Returns w' /\
    rw_wrote w' = Some (StatusTooManyRequests,
                        {[ "Content-Type" := ["application/json"] ]}) /\
    rw_body w' = [ErrorResponse "Rate limit exceeded"] /\
    (forall k v, In (k, v) securityHeaders -> rw_header w' !! k = None) /\
    srv_app (fst (routed elapsed now h freshWriter r srv)) = srv_app srv.
Proof.
  intros Hrefused. unfold routed, loggingMiddleware, rateLimitOnWriter.
  destruct (getLimiter_Allow (srv_limiter srv) (clientIP r) now) as [rl' ok].
  cbn [snd] in Hrefused. subst ok. cbn [negb fst snd].
  eexists. split; [reflexivity|]. cbn.
  split; [reflexivity|]. split; [reflexivity|]. split; [|reflexivity].
  intros k v Hin. cbn in Hin.
  destruct Hin as [[= <- <-]|[[= <- <-]|[[= <- <-]|[[= <- <-]|[[= <- <-]|[]]]]]];
    reflexivity.
Qed.

(** X21.  A request that is admitted and answered by its handler goes out
    with the handler's status and payload, the JSON content type, and each
    of the five security headers with its fixed value. *)
Theorem served_response_carries_security_headers elapsed now h r srv app' a :
  snd (getLimiter_Allow (srv_limiter srv) (clientIP r) now) = true ->
  h r (srv_app srv) = (app', Returns a) ->
  exists w' headers,
    snd (routed elapsed now h freshWriter r srv) = Returns w' /\
    rw_wrote w' = Some (w_status a, headers) /\
    rw_body w' = [w_payload a] /\
    headers !! "Content-Type" = Some ["application/json"] /\
    (forall k v, In (k, v) securityHeaders -> headers !! k = Some [v]) /\
    srv_app (fst (routed elapsed now h freshWriter r srv)) = app'.
Proof.
  intros Hok Hh. unfold routed, loggingMiddleware, rateLimitOnWriter,
    securityHeadersMiddleware, onWriter.
  destruct (getLimiter_Allow (srv_limiter srv) (clientIP r) now) as [rl' ok].
  cbn [snd] in Hok. subst ok. cbn [negb srv_app]. rewrite Hh. cbn [fst snd].
  eexists. eexists. split; [reflexivity|].
  unfold writeJSON, Encode, WriteHeader, Header_SetW.
  cbn [rw_header rw_wrote rw_body rw_statusCode freshWriter srv_app app].
  split; [reflexivity|]. split; [reflexivity|].
  split; [apply lookup_insert_eq|]. split; [|reflexivity].
  intros k v Hin. cbn in Hin.
  destruct Hin as [[= <- <-]|[[= <- <-]|[[= <- <-]|[[= <- <-]|[[= <- <-]|[]]]]]];
    vm_compute; reflexivity.
Qed.

(** X22.  Every request that is answered, refused or served, adds one line
    to the access log, with the status that went out; a request whose
    handler panics adds none. *)
Theorem access_log_records_the_status_sent elapsed now h r srv :
  match routed elapsed now h freshWriter r srv with
  | (srv', Returns w') =>
      exists code headers,
        rw_wrote w' = Some (code, headers) /\
        srv_access srv' =
          srv_access srv ++
            [mkAccessLine (Method r) (Path r) code elapsed (RemoteAddr r)]
  | (srv', Panics _) => srv_access srv' = srv_access srv
  end.
Proof.
  unfold routed, loggingMiddleware, rateLimitOnWriter, securityHeadersMiddleware,
    onWriter.
  destruct (getLimiter_Allow (srv_limiter srv) (clientIP r) now) as [rl' [|]];
    cbn [negb srv_app].
  - destruct (h r (srv_app srv)) as [app' [a|msg]]; cbn [srv_access].
    + eexists. eexists. split; reflexivity.
    + reflexivity.
  - eexists. eexists. split; reflexivity.
Qed.

(** ** Configuration *)

Lemma getEnv_nonempty env key d : d <> "" -> getEnv env key d <> "".
Proof.
  intros Hd. unfold getEnv. destruct (String.eqb_spec (Getenv env key) "");
    cbn [negb]; assumption.
Qed.

(** X23.  Whatever the environment holds, the server address, the endpoint
    URL, the model name and the tracing endpoint of the loaded
    configuration are never empty: an empty value counts as unset. *)
Theorem string_settings_are_never_empty P env :
  ServerAddr (LoadConfig P env) <> "" /\
  OllamaURL (LoadConfig P env) <> "" /\
  OllamaModel (LoadConfig P env) <> "" /\
  OTELEndpoint (LoadConfig P env) <> "".
Proof.
  unfold LoadConfig; cbn [ServerAddr OllamaURL OllamaModel OTELEndpoint].
  repeat split; apply getEnv_nonempty; discriminate.
Qed.

(** X24.  When each of the nine variables is unset or empty, [LoadConfig]
    gives the default configuration, whatever the parsers would do and
    whatever else the environment holds. *)
Theorem unset_variables_give_defaults P env :
  (forall key, In key configKeys -> env !! key = None \/ env !! key = Some "") ->
  LoadConfig P env = defaultConfig.
Proof.
  intros Hunset.
  assert (Hget : forall key, In key configKeys -> Getenv env key = "").
  { intros key Hin. unfold Getenv. destruct (Hunset key Hin) as [-> | ->]; reflexivity. }
  unfold LoadConfig, getEnv, getIntEnv, getDurationEnv, getBoolEnv, defaultConfig.
  rewrite !Hget by (cbn; tauto). reflexivity.
Qed.

(** ** The service as a whole *)

Section ServiceExtras.

Variable growslice : nat -> nat -> nat.
Variable ollama : OllamaClient.

(** What [askHandler] does to the store: nothing, or one [Add] of a well
    recorded pair. *)
Lemma askHandler_store E r st :
  storage (fst (askHandler E growslice ollama r st)) = storage st \/
  exists p, wellRecorded p /\
    storage (fst (askHandler E growslice ollama r st))
      = fst (Add growslice (storage st) p).
Proof.
  unfold askHandler.
  destruct (negb (Contains _ _)); [left; reflexivity|].
  destruct (json_Decode E (ReqBody r)) as [req|]; [|left; reflexivity].
  destruct (Nat.ltb_spec 1000 (String.length (AskRequest_Question req)))
    as [Hlong|Hlen]; [left; reflexivity|].
  destruct (String.eqb_spec (TrimSpace (AskRequest_Question req)) "")
    as [Hblank|Hne]; [left; reflexivity|].
  pose proof (answer_is_nonempty E ollama (AskRequest_Question req) (sent st))
    as Hanswer.
  destruct (GenerateAnswer E ollama (AskRequest_Question req) (sent st))
    as [sent' [answer [e|]]]; [left; reflexivity|].
  right. exists (mkQAPair (AskRequest_Question req) answer). split.
  - repeat split; cbn [Question Answer]; [exact Hlen|exact Hne|].
    apply Hanswer. reflexivity.
  - destruct (Add growslice (storage st) _) as [storage' [[e|]|msg]]; reflexivity.
Qed.

(** The pairs in the log after an [Add] were there before, or are the new
    one; that holds for every capacity. *)
Lemma Add_keeps_or_adds st p x :
  store_wf st ->
  In x (history (fst (Add growslice st p))) -> In x (history st) \/ x = p.
Proof.
  intros Hwf Hin.
  assert (Hall : In x (history st ++ [p]) -> In x (history st) \/ x = p).
  { rewrite in_app_iff. cbn. intros [?|[?|[]]]; auto. }
  apply Hall. destruct (Z.lt_ge_cases (maxSize (snd st)) 0) as [Hneg|Hpos].
  - destruct (Add_negative growslice st p Hwf Hneg) as [_ Hhist].
    rewrite <- Hhist. exact Hin.
  - destruct (Add_history growslice st p Hwf Hpos) as [_ Hhist].
    rewrite Hhist in Hin. unfold lastN in Hin. eapply In_drop, Hin.
Qed.

Lemma historyHandler_store r st :
  storage (fst (historyHandler r st)) = fst (GetAll (storage st)).
Proof.
  unfold historyHandler.
  destruct (GetAll (storage st)) as [storage' [result [e|]]]; reflexivity.
Qed.

Lemma serveApp_invariant (I : AppState -> Prop) :
  (forall E r st, I st -> I (fst (askHandler E growslice ollama r st))) ->
  (forall r st, I st -> I (fst (historyHandler r st))) ->
  forall reqs st, I st -> I (serveApp growslice ollama reqs st).
Proof.
  intros Hask Hhist reqs.
  induction reqs as [|[[E [|]] r] reqs IH]; intros st Hst; cbn [serveApp].
  - exact Hst.
  - apply IH, Hask, Hst.
  - apply IH, Hhist, Hst.
Qed.

(** X25.  For a configured capacity that is not negative, after any
    sequence of [/ask] and [/history] requests, whatever the endpoint
    answered, the store is well formed and the history is no longer than
    the capacity. *)
Theorem history_stays_within_capacity config reqs :
  0 <= MaxHistorySize config ->
  let st := serveApp growslice ollama reqs (srv_app (fst (startServer config))) in
  store_wf (storage st) /\
  Z.of_nat (length (history (storage st))) <= MaxHistorySize config.
Proof.
  intros Hm.
  set (I := fun st : AppState =>
              store_wf (storage st) /\
              maxSize (snd (storage st)) = MaxHistorySize config /\
              Z.of_nat (length (history (storage st))) <= MaxHistorySize config).
  assert (Hinv : I (serveApp growslice ollama reqs (srv_app (fst (startServer config))))).
  { apply serveApp_invariant.
    - intros E r st HI. unfold I in *. destruct HI as (Hwf & Hmax & Hlen).
      destruct (askHandler_store E r st) as [-> | (p & _ & ->)];
        [split; [assumption|split; assumption]|].
      destruct (Add_frame growslice (storage st) p Hwf) as (Hwf' & Hmax' & _).
      destruct (Add_history growslice (storage st) p Hwf) as [_ Hhist]; [lia|].
      split; [exact Hwf'|]. split; [congruence|].
      rewrite Hhist, length_lastN, Hmax. lia.
    - intros r st HI. unfold I in *. destruct HI as (Hwf & Hmax & Hlen).
      rewrite historyHandler_store.
      destruct (GetAll_spec (storage st) Hwf) as (_ & Hwf' & Hsame & Hhist & _).
      split; [exact Hwf'|]. split; [congruence|]. rewrite Hhist. exact Hlen.
    - unfold I, startServer; cbn [fst srv_app storage].
      destruct (NewMemoryStorage_wf [] (MaxHistorySize config)) as (Hwf & Hempty & Hmax).
      split; [exact Hwf|]. split; [exact Hmax|]. rewrite Hempty. cbn. lia. }
  destruct Hinv as (Hwf & _ & Hlen). split; assumption.
Qed.

(** X26.  After any sequence of [/ask] and [/history] requests, every pair
    in the history has a question of at most 1000 bytes that is not blank
    and an answer that is not empty. *)
Theorem recorded_pairs_are_well_formed config reqs :
  let st := serveApp growslice ollama reqs (srv_app (fst (startServer config))) in
  Forall wellRecorded (history (storage st)).
Proof.
  set (I := fun st : AppState =>
              store_wf (storage st) /\
              Forall wellRecorded (history (storage st))).
  assert (Hinv : I (serveApp growslice ollama reqs (srv_app (fst (startServer config))))).
  { apply serveApp_invariant.
    - intros E r st HI. unfold I in *. destruct HI as (Hwf & Hall).
      destruct (askHandler_store E r st) as [-> | (p & Hp & ->)];
        [split; assumption|].
      destruct (Add_frame growslice (storage st) p Hwf) as (Hwf' & _).
      split; [exact Hwf'|]. apply List.Forall_forall. intros x Hx.
      destruct (Add_keeps_or_adds (storage st) p x Hwf Hx) as [Hold | ->];
        [|exact Hp].
      rewrite List.Forall_forall in Hall. apply Hall, Hold.
    - intros r st HI. unfold I in *. destruct HI as (Hwf & Hall).
      rewrite historyHandler_store.
      destruct (GetAll_spec (storage st) Hwf) as (_ & Hwf' & _ & Hhist & _).
      split; [exact Hwf'|]. rewrite Hhist. exact Hall.
    - unfold I, startServer; cbn [fst srv_app storage].
      destruct (NewMemoryStorage_wf [] (MaxHistorySize config)) as (Hwf & Hempty & _).
      split; [exact Hwf|]. rewrite Hempty. constructor. }
  exact (proj2 Hinv).
Qed.

End ServiceExtras.

(** ** More of the model at work *)

(** Capacity -5: both calls panic and both pairs stay. *)
Lemma negative_capacity_never_trims_witness :
  history (fst (AddAll doubling (NewMemoryStorage [] (-5))
                  [pairOf "one" "a"; pairOf "two" "b"]))
    = [pairOf "one" "a"; pairOf "two" "b"].
Proof.
  apply (negative_capacity_never_trims doubling (NewMemoryStorage [] (-5))
           [pairOf "one" "a"; pairOf "two" "b"]).
  - apply NewMemoryStorage_wf.
  - reflexivity.
Defined.

(** The caller overwrites the first element of the copy, and tries an index
    past its end. *)
Lemma writes_through_copy_leave_history_witness :
  history (setAll (fst (fst (GetAll threeAdded))) (fst (snd (GetAll threeAdded)))
             [(0, pairOf "changed" "x"); (7, pairOf "beyond" "y")],
           snd (fst (GetAll threeAdded)))
    = [pairOf "one" "a"; pairOf "two" "b"; pairOf "three" "c"].
Proof.
  apply (writes_through_copy_leave_history threeAdded
           [(0, pairOf "changed" "x"); (7, pairOf "beyond" "y")]).
  vm_compute. lia.
Defined.

(** Capacity 2, reads between the writes. *)
Lemma interleaved_reads_keep_history_witness :
  history (runOps doubling (NewMemoryStorage [] 2)
             [OpAdd (pairOf "one" "a"); OpGetAll; OpAdd (pairOf "two" "b");
              OpAdd (pairOf "three" "c"); OpGetAll])
    = [pairOf "two" "b"; pairOf "three" "c"].
Proof.
  apply (interleaved_reads_keep_history doubling [] 2
           [OpAdd (pairOf "one" "a"); OpGetAll; OpAdd (pairOf "two" "b");
            OpAdd (pairOf "three" "c"); OpGetAll]).
  lia.
Defined.

Lemma copy_survives_later_operations_witness :
  elems (fst (runOps doubling (fst (GetAll threeAdded))
                [OpAdd (pairOf "four" "d"); OpGetAll; OpAdd (pairOf "five" "e")]))
        (fst (snd (GetAll threeAdded)))
    = [pairOf "one" "a"; pairOf "two" "b"; pairOf "three" "c"].
Proof.
  apply (copy_survives_later_operations doubling threeAdded
           [OpAdd (pairOf "four" "d"); OpGetAll; OpAdd (pairOf "five" "e")]).
  vm_compute. lia.
Defined.

Lemma sanitizeInput_strips_NUL_and_shrinks_witness :
  sanitizeInput "  hi  " = TrimSpace "  hi  ".
Proof.
  apply (sanitizeInput_strips_NUL_and_shrinks "  hi  ").
  vm_compute. intros H.
  repeat (destruct H as [H|H]; [discriminate H|]). exact H.
Defined.

Lemma answer_is_nonempty_and_trimmed_witness :
  fst (snd (GenerateAnswer (mockEnv 200 yesStream) mockClient "Does this work?" []))
    <> "".
Proof.
  apply (answer_is_nonempty_and_trimmed (mockEnv 200 yesStream) mockClient
           "Does this work?" []).
  reflexivity.
Defined.

Lemma error_means_nothing_sent_witness :
  fst (GenerateAnswer brokenEnv mockClient "Who is there?" []) = [].
Proof.
  apply (error_means_nothing_sent brokenEnv mockClient "Who is there?" []
           (wrapError "failed to marshal request"
                      (errorString "json: unsupported value"))).
  reflexivity.
Defined.

Lemma one_request_with_the_sanitized_prompt_witness :
  exists jsonData req0,
    json_Marshal (mockEnv 200 yesStream) (payloadFor mockClient " Who? ")
      = inl jsonData /\
    http_NewRequest (mockEnv 200 yesStream) "POST" (url mockClient) jsonData
      = inl req0 /\
    fst (GenerateAnswer (mockEnv 200 yesStream) mockClient " Who? " []) =
      [] ++ [mkHTTPRequest (out_method req0) (out_url req0) (out_body req0)
               (Header_Set (out_header req0) "Content-Type" "application/json")].
Proof.
  apply (one_request_with_the_sanitized_prompt (mockEnv 200 yesStream) mockClient
           " Who? " []).
  reflexivity.
Defined.

(** A read error after the completed fragment is not seen. *)
Lemma nothing_after_done_is_read_witness :
  scanLoop (mockEnv 200 [])
           ([Token (fragment "Y" false)] ++ Token (fragment "es" true) :: resetStream)
           None ""
    = scanLoop (mockEnv 200 [])
               ([Token (fragment "Y" false)] ++ [Token (fragment "es" true)])
               None "".
Proof.
  apply (nothing_after_done_is_read (mockEnv 200 []) [Token (fragment "Y" false)]
           (fragment "es" true) (mkOllamaResponse "es" true) resetStream None "").
  - vm_compute. discriminate.
  - vm_compute. reflexivity.
  - reflexivity.
Defined.

(** A request without a content type. *)
Lemma bad_content_type_or_body_is_rejected_witness :
  askHandler (mockEnv 200 yesStream) doubling mockClient bareRequest emptyApp
    = (emptyApp,
       respondWithError "Content-Type must be application/json" StatusBadRequest).
Proof.
  apply (bad_content_type_or_body_is_rejected (mockEnv 200 yesStream) doubling
           mockClient bareRequest emptyApp).
  left. apply lookup_empty.
Defined.


Lemma upstream_failure_is_answered_and_recorded_witness :
  snd (askHandler (mockEnv 503 []) doubling mockClient workingRequest emptyApp)
    = respondWithJSON (AskResponse fallbackAnswer) StatusOK.
Proof.
  eapply (upstream_failure_is_answered_and_recorded (mockEnv 503 []) doubling
            mockClient workingRequest emptyApp (mkAskRequest "Does this work?")).
  - reflexivity.
  - reflexivity.
  - cbn. lia.
  - vm_compute. discriminate.
  - reflexivity.
  - left. discriminate.
  - apply NewMemoryStorage_wf.
  - cbn. lia.
Defined.

Lemma askHandler_outcomes_witness :
  exists extra,
    sent (fst (askHandler (mockEnv 200 yesStream) doubling mockClient
                 workingRequest emptyApp))
      = sent emptyApp ++ extra /\ (length extra <= 1)%nat.
Proof.
  apply (askHandler_outcomes (mockEnv 200 yesStream) doubling mockClient
           workingRequest emptyApp).
Defined.


Lemma answered_question_is_latest_in_history_witness :
  exists earlier,
    snd (historyHandler bareRequest
           (fst (askHandler (mockEnv 200 yesStream) doubling mockClient
                   workingRequest (mkAppState threeAdded [] []))))
      = respondWithJSON
          (HistoryResponse (earlier ++ [pairOf "Does this work?" "Yes."]))
          StatusOK.
Proof.
  eapply (answered_question_is_latest_in_history (mockEnv 200 yesStream) doubling
            mockClient workingRequest bareRequest (mkAppState threeAdded [] [])
            (mkAskRequest "Does this work?") _ "Yes.").
  - reflexivity.
  - reflexivity.
  - cbn. lia.
  - vm_compute. discriminate.
  - reflexivity.
  - vm_compute. lia.
  - vm_compute. discriminate.
Defined.

(** Rate 2, nine calls made: after the clean-up four calls pass again. *)
Lemma cleanup_restores_full_burst_witness :
  snd (burstOf (cleanup spentLimiter "192.0.2.1:4000") "192.0.2.1:4000" 1 6)
    = [true; true; true; true; false; false].
Proof.
  apply (cleanup_restores_full_burst spentLimiter "192.0.2.1:4000" 1 6).
  vm_compute. split; [discriminate|reflexivity].
Defined.

Lemma nonpositive_rate_refuses_everything_witness :
  snd (admitAll (newRateLimiter 0)
         [("192.0.2.1:4000", 0); ("203.0.113.7", 5); ("192.0.2.1:4000", 900 * nano)])
    = [false; false; false].
Proof.
  apply (nonpositive_rate_refuses_everything 0
           [("192.0.2.1:4000", 0); ("203.0.113.7", 5);
            ("192.0.2.1:4000", 900 * nano)]).
  lia.
Defined.

Lemma refused_request_has_no_security_headers_witness :
  exists w',
    snd (routed 1 0 (askHandler (mockEnv 200 yesStream) doubling mockClient)
           freshWriter workingRequest (mkServer spentLimiter emptyApp []))
      = Returns w' /\
    rw_wrote w' = Some (StatusTooManyRequests,
                        {[ "Content-Type" := ["application/json"] ]}) /\
    rw_body w' = [ErrorResponse "Rate limit exceeded"] /\
    (forall k v, In (k, v) securityHeaders -> rw_header w' !! k = None) /\
    srv_app (fst (routed 1 0 (askHandler (mockEnv 200 yesStream) doubling mockClient)
                    freshWriter workingRequest (mkServer spentLimiter emptyApp [])))
      = emptyApp.
Proof.
  apply (refused_request_has_no_security_headers 1 0
           (askHandler (mockEnv 200 yesStream) doubling mockClient)
           workingRequest (mkServer spentLimiter emptyApp [])).
  vm_compute. reflexivity.
Defined.

Lemma served_response_carries_security_headers_witness :
  exists w' headers,
    snd (routed 1 0 (askHandler (mockEnv 200 yesStream) doubling mockClient)
           freshWriter workingRequest (mkServer (newRateLimiter 10) emptyApp []))
      = Returns w' /\
    rw_wrote w' = Some (StatusOK, headers) /\
    rw_body w' = [AskResponse "Yes."] /\
    headers !! "Content-Type" = Some ["application/json"] /\
    (forall k v, In (k, v) securityHeaders -> headers !! k = Some [v]) /\
    srv_app (fst (routed 1 0 (askHandler (mockEnv 200 yesStream) doubling mockClient)
                    freshWriter workingRequest
                    (mkServer (newRateLimiter 10) emptyApp [])))
      = fst (askHandler (mockEnv 200 yesStream) doubling mockClient
               workingRequest emptyApp).
Proof.
  apply (served_response_carries_security_headers 1 0
           (askHandler (mockEnv 200 yesStream) doubling mockClient)
           workingRequest (mkServer (newRateLimiter 10) emptyApp [])
           (fst (askHandler (mockEnv 200 yesStream) doubling mockClient
                   workingRequest emptyApp))
           (mkWritten StatusOK (AskResponse "Yes."))).
  - vm_compute. reflexivity.
  - vm_compute. reflexivity.
Defined.

Lemma unset_variables_give_defaults_witness :
  LoadConfig noParsers ∅ = defaultConfig.
Proof.
  apply (unset_variables_give_defaults noParsers ∅).
  intros key _. left. apply lookup_empty.
Defined.

Lemma history_stays_within_capacity_witness :
  Z.of_nat (length (history (storage
     (serveApp doubling mockClient
        [(mockEnv 200 yesStream, RouteAsk, workingRequest);
         (mockEnv 200 yesStream, RouteHistory, bareRequest);
         (mockEnv 503 [], RouteAsk, workingRequest)]
        (srv_app (fst (startServer defaultConfig))))))) <= 1000.
Proof.
  apply (history_stays_within_capacity doubling mockClient defaultConfig
           [(mockEnv 200 yesStream, RouteAsk, workingRequest);
            (mockEnv 200 yesStream, RouteHistory, bareRequest);
            (mockEnv 503 [], RouteAsk, workingRequest)]).
  cbn. lia.
Defined.
